(** * commend.py: item-based movie recommendation

    A shallow embedding of [src/commend.py]: the data frames the module
    builds when it is loaded ([df_merged], [df_piv], [df_sp], [rec_model])
    and its two ranking functions, [get_recommendations] and
    [get_top_rated_movies].

    Conventions of the embedding.
    - Movie and user ids are Python integers: [Z].  Row positions are [nat].
    - Ratings, distances and similarity scores are floating-point numbers in
      the program; they are embedded as exact rationals [Q].
    - Python exceptions are values of [exn]; a computation that may raise
      has type [result A].
    - The data frames [df_ratings] and [df_movies] are taken as they stand
      after the reading and cleaning code (lines 9-45 of the source).
    - The scikit-learn calls ([NearestNeighbors.fit], [kneighbors]) and
      pandas' [sort_values] are library routines: they are parameters of
      the development. *)

From Stdlib Require Import List ZArith QArith Qround Ascii String Bool Lia Lqa.
From Stdlib Require Import Permutation Sorted.
Import ListNotations.

Set Implicit Arguments.

(** ** Exceptions *)

(** The exceptions the code meets.  [KeyError] is the one
    [get_recommendations] catches; [IndexError] is raised by positional
    indexing out of range; [ValueError] is what pandas and scikit-learn
    raise on data they reject.  [DataIntegrityError] is the error the
    build contract names; no statement of the source raises it. *)
Inductive exn : Set :=
| KeyError
| IndexError
| ValueError
| DataIntegrityError.

Inductive result (A : Type) : Type :=
| Ok (a : A)
| Raise (e : exn).

Arguments Ok {A} a.
Arguments Raise {A} e.

Definition bind {A B : Type} (c : result A) (k : A -> result B) : result B :=
  match c with
  | Ok a => k a
  | Raise e => Raise e
  end.

Notation "x <- c ;; k" := (bind c (fun x => k))
  (at level 61, c at next level, right associativity).

(** [[f(x) for x in l]] where [f] may raise: the first exception wins. *)
Fixpoint mapM {A B : Type} (f : A -> result B) (l : list A) : result (list B) :=
  match l with
  | [] => Ok []
  | x :: rest =>
      y <- f x ;;
      ys <- mapM f rest ;;
      Ok (y :: ys)
  end.

(** Positional indexing [l[i]] with [i >= 0]. *)
Definition getitem {A : Type} (l : list A) (i : nat) : result A :=
  match nth_error l i with
  | Some a => Ok a
  | None => Raise IndexError
  end.

(** ** Rows of the data frames *)

(** A row of [df_ratings]: the first three columns of the ratings file. *)
Record rating_row : Set := mk_rating {
  userId : Z;
  r_movie_id : Z;
  rating : Q
}.

(** A row of [df_movies] (its [movie_title_clean] column is never read by
    the ranking functions and is left out). *)
Record movie_row : Set := mk_movie {
  movie_id : Z;
  movie_title : string
}.

(** A row of [df_merged]. *)
Record merged_row : Set := mk_merged {
  m_userId : Z;
  m_movie_id : Z;
  m_rating : Q;
  m_movie_title : string
}.

(** [x in l] for a list of integers. *)
Definition in_list (x : Z) (l : list Z) : bool :=
  existsb (Z.eqb x) l.

(** Sorted list of the distinct values of [l]. *)
Fixpoint insert_uniq (x : Z) (l : list Z) : list Z :=
  match l with
  | [] => [x]
  | y :: l' =>
      if (x <? y)%Z then x :: l
      else if (x =? y)%Z then l
      else y :: insert_uniq x l'
  end.

Definition sorted_unique (l : list Z) : list Z :=
  fold_right insert_uniq [] l.

(** ** Module level: merge, pivot, fit *)

(** [pd.merge(df_ratings, df_movies, on='movie_id')]: the inner join.  The
    order of the joined rows is not observed by anything downstream
    ([pivot] and [groupby] both sort by key). *)
Definition merge (df_ratings : list rating_row) (df_movies : list movie_row)
  : list merged_row :=
  flat_map
    (fun r =>
       map (fun m => mk_merged (userId r) (r_movie_id r) (rating r) (movie_title m))
           (filter (fun m => (movie_id m =? r_movie_id r)%Z) df_movies))
    df_ratings.

(** The pivot table: row labels, column labels and cells. *)
Record pivot_table (cell : Type) : Type := mk_pivot {
  index : list Z;
  columns : list Z;
  values : list (list cell)
}.

(** Does some (movie_id, userId) pair occur twice?  [pivot] refuses those. *)
Fixpoint duplicate_entries (df : list merged_row) : bool :=
  match df with
  | [] => false
  | r :: rest =>
      existsb (fun r' => (m_movie_id r' =? m_movie_id r)%Z
                         && (m_userId r' =? m_userId r)%Z) rest
      || duplicate_entries rest
  end.

Definition pivot_cell (df : list merged_row) (mid uid : Z) : option Q :=
  option_map m_rating
    (find (fun r => (m_movie_id r =? mid)%Z && (m_userId r =? uid)%Z) df).

(** [df.pivot(index="movie_id", columns="userId", values="rating")]. *)
Definition pivot (df : list merged_row) : result (pivot_table (option Q)) :=
  if duplicate_entries df then Raise ValueError
  else
    let idx := sorted_unique (map m_movie_id df) in
    let cols := sorted_unique (map m_userId df) in
    Ok (mk_pivot idx cols
          (map (fun mid => map (fun uid => pivot_cell df mid uid) cols) idx)).

(** [.fillna(0)]. *)
Definition fillna (v : Q) (t : pivot_table (option Q)) : pivot_table Q :=
  mk_pivot (index t) (columns t)
    (map (map (fun c => match c with Some x => x | None => v end)) (values t)).

(** [csr_matrix(df_piv.values)]: the same matrix, row by row. *)
Definition csr_matrix (vals : list (list Q)) : list (list Q) := vals.

(** The module's globals once it is loaded. *)
Record engine (model : Type) : Type := mk_engine {
  df_movies : list movie_row;
  df_merged : list merged_row;
  df_piv : pivot_table Q;
  df_sp : list (list Q);
  rec_model : model
}.

(** ** The recommendation dictionary *)

(** [recommendations] is a Python dict from movie id to score; its
    iteration order is the order in which the keys were first inserted, so
    it is an association list with distinct keys. *)
Definition dict : Set := list (Z * Q).

Fixpoint dict_get (d : dict) (k : Z) (default : Q) : Q :=
  match d with
  | [] => default
  | (k', v) :: rest => if (k' =? k)%Z then v else dict_get rest k default
  end.

Fixpoint dict_set (d : dict) (k : Z) (v : Q) : dict :=
  match d with
  | [] => [(k, v)]
  | (k', v') :: rest =>
      if (k' =? k)%Z then (k', v) :: rest else (k', v') :: dict_set rest k v
  end.

(** [recommendations[rec_id] = recommendations.get(rec_id, 0) + rec_score] *)
Definition add_score (recommendations : dict) (p : Z * Q) : dict :=
  let (rec_id, rec_score) := p in
  dict_set recommendations rec_id (dict_get recommendations rec_id 0 + rec_score)%Q.

(** [for i in range(1, len(similar_movie_ids))]: every neighbour but the
    one at position 0. *)
Definition add_neighbours (recommendations : dict) (similar : list (Z * Q)) : dict :=
  fold_left add_score (tl similar) recommendations.

(** ** [sorted(..., key=lambda item: item[1], reverse=True)] *)

Definition Qlt_bool (x y : Q) : bool := negb (Qle_bool y x).

(** Python's [sorted] is stable, also with [reverse=True]: items with equal
    keys keep their relative order.  It only compares keys with [<]. *)
Fixpoint insert_desc (x : Z * Q) (l : list (Z * Q)) : list (Z * Q) :=
  match l with
  | [] => [x]
  | y :: l' =>
      if Qlt_bool (snd x) (snd y) then y :: insert_desc x l' else x :: l
  end.

Definition sorted_desc (items : list (Z * Q)) : list (Z * Q) :=
  fold_right insert_desc [] items.

(** ** Selection and titles *)

(** The loop that fills [final_recs]. *)
Fixpoint select_final (movie_ids : list Z) (sorted_recs : list (Z * Q))
  (final_recs : list Z) : list Z :=
  match sorted_recs with
  | [] => final_recs
  | (rec_id, _) :: rest =>
      let final_recs' :=
        if negb (in_list rec_id movie_ids) then final_recs ++ [rec_id]
        else final_recs in
      if (5 <=? List.length final_recs')%nat then final_recs'
      else select_final movie_ids rest final_recs'
  end.

(** [df_movies[df_movies['movie_id'] == movie_id]['movie_title']] *)
Definition title_series (movies : list movie_row) (id : Z) : list string :=
  map movie_title (filter (fun m => (movie_id m =? id)%Z) movies).

(** The loop that resolves ids to titles: an id with an empty title
    series adds nothing. *)
Fixpoint titles_of (movies : list movie_row) (ids : list Z) : list string :=
  match ids with
  | [] => []
  | id :: rest =>
      match title_series movies id with
      | [] => titles_of movies rest
      | title :: _ => title :: titles_of movies rest
      end
  end.

(** ** Popularity statistics *)

(** [df.groupby('movie_id')['rating']]: groups sorted by key, each with
    its ratings in row order. *)
Definition groupby_rating (df : list merged_row) : list (Z * list Q) :=
  map (fun k => (k, map m_rating (filter (fun r => (m_movie_id r =? k)%Z) df)))
      (sorted_unique (map m_movie_id df)).

Definition Qsum (l : list Q) : Q := fold_right Qplus 0%Q l.

Definition mean (l : list Q) : Q :=
  (Qsum l / inject_Z (Z.of_nat (List.length l)))%Q.

Fixpoint insert_asc (x : Z) (l : list Z) : list Z :=
  match l with
  | [] => [x]
  | y :: l' => if (x <=? y)%Z then x :: l else y :: insert_asc x l'
  end.

Definition sort_asc (l : list Z) : list Z := fold_right insert_asc [] l.

(** [Series.median()] of integer counts: [None] stands for NaN (the
    median of an empty series). *)
Definition median (l : list Z) : option Q :=
  let s := sort_asc l in
  let n := List.length s in
  match n with
  | O => None
  | _ =>
      if Nat.even n
      then Some ((inject_Z (nth (n / 2 - 1) s 0%Z) + inject_Z (nth (n / 2) s 0%Z)) / 2)%Q
      else Some (inject_Z (nth (n / 2) s 0%Z))
  end.

(** [count >= threshold]; a comparison with NaN is false. *)
Definition ge_threshold (count : Z) (threshold : option Q) : bool :=
  match threshold with
  | Some t => Qle_bool t (inject_Z count)
  | None => false
  end.

Section Commend.

(** ** The library routines *)

(** The fitted nearest-neighbour model, its constructor
    [NearestNeighbors(n_neighbors=11, algorithm="brute", metric="cosine").fit]
    and its query [kneighbors(row, n_neighbors)], which answers with the
    distances and the row positions of the neighbours, nearest first, as a
    list of pairs. *)
Variable model : Type.
Variable fit : list (list Q) -> result model.
Variable kneighbors : model -> list Q -> nat -> result (list (Q * nat)).

(** [DataFrame.sort_values(by='rating', ascending=False)] on the
    (movie_id, mean rating) rows, with pandas' default sorting algorithm
    (quicksort, which is not stable). *)
Variable sort_values : list (Z * Q) -> list (Z * Q).

(** ** Loading the module (lines 47-57) *)

Definition load (ratings : list rating_row) (movies : list movie_row)
  : result (engine model) :=
  let merged := merge ratings movies in
  piv <- pivot merged ;;
  let piv0 := fillna 0%Q piv in
  let sp := csr_matrix (values piv0) in
  m <- fit sp ;;
  Ok (mk_engine movies merged piv0 sp m).

Variable g : engine model.

(** ** [get_recommendations] *)

(** [df_piv.index.get_loc(movie_id)] *)
Fixpoint get_loc (idx : list Z) (key : Z) : result nat :=
  match idx with
  | [] => Raise KeyError
  | x :: rest =>
      if (x =? key)%Z then Ok 0%nat
      else (n <- get_loc rest key ;; Ok (S n))
  end.

(** The body of the [try] up to the inner loop: the neighbours of one seed
    with their scores, position 0 included. *)
Definition similar_movies (movie_id : Z) : result (list (Z * Q)) :=
  movie_idx <- get_loc (index (df_piv g)) movie_id ;;
  row <- getitem (df_sp g) movie_idx ;;
  nb <- kneighbors (rec_model g) row 11 ;;
  let distance := map fst nb in
  let indice := map snd nb in
  similar_movie_ids <- mapM (getitem (index (df_piv g))) indice ;;
  let scores := map (fun d => 1 - d)%Q distance in
  Ok (combine similar_movie_ids scores).

(** The outer loop: [except KeyError: continue]; any other exception
    leaves the function. *)
Fixpoint accumulate (movie_ids : list Z) (recommendations : dict) : result dict :=
  match movie_ids with
  | [] => Ok recommendations
  | movie_id :: rest =>
      match similar_movies movie_id with
      | Ok similar => accumulate rest (add_neighbours recommendations similar)
      | Raise KeyError => accumulate rest recommendations
      | Raise e => Raise e
      end
  end.

(** [recommendations] when the outer loop is over. *)
Definition recommendations_of (movie_ids : list Z) : result dict :=
  accumulate movie_ids [].

(** [sorted_recs] *)
Definition sorted_recs_of (movie_ids : list Z) : result (list (Z * Q)) :=
  recs <- recommendations_of movie_ids ;;
  Ok (sorted_desc recs).

(** [final_recs] *)
Definition final_recs_of (movie_ids : list Z) : result (list Z) :=
  sorted_recs <- sorted_recs_of movie_ids ;;
  Ok (select_final movie_ids sorted_recs []).

Definition get_recommendations (movie_ids : list Z) : result (list string) :=
  final_recs <- final_recs_of movie_ids ;;
  Ok (titles_of (df_movies g) final_recs).

(** ** [get_top_rated_movies] *)

Definition df_mean_rating : list (Z * Q) :=
  map (fun kv => (fst kv, mean (snd kv))) (groupby_rating (df_merged g)).

Definition df_count_rating : list (Z * Z) :=
  map (fun kv => (fst kv, Z.of_nat (List.length (snd kv)))) (groupby_rating (df_merged g)).

Definition min_ratings_threshold : option Q :=
  median (map snd df_count_rating).

Definition popular_movies : list Z :=
  map fst (filter (fun kc => ge_threshold (snd kc) min_ratings_threshold)
                  df_count_rating).

(** [df_mean_rating] after the [isin(popular_movies)] filter. *)
Definition df_mean_popular : list (Z * Q) :=
  filter (fun km => in_list (fst km) popular_movies) df_mean_rating.

Definition top_5_ids : list Z :=
  map fst (firstn 5 (sort_values df_mean_popular)).

Definition get_top_rated_movies : list string :=
  titles_of (df_movies g) top_5_ids.

End Commend.

(** ** A concrete index and a concrete catalogue

    An exact brute-force cosine index, for rating rows whose Euclidean
    norm is an integer (the square root is then exact), and a catalogue of
    twelve movies rated by three users whose rows all have integer norm.
    They instantiate the library parameters in the examples below. *)

Definition dot (a b : list Q) : Q :=
  Qsum (map (fun p => fst p * snd p)%Q (combine a b)).

Definition norm (a : list Q) : Q :=
  inject_Z (Z.sqrt (Qfloor (dot a a))).

Definition cosine_distance (a b : list Q) : Q :=
  Qred (1 - dot a b / (norm a * norm b))%Q.

Fixpoint insert_near (x : Q * nat) (l : list (Q * nat)) : list (Q * nat) :=
  match l with
  | [] => [x]
  | y :: l' =>
      if Qlt_bool (fst y) (fst x) then y :: insert_near x l' else x :: l
  end.

Definition nearest_first (l : list (Q * nat)) : list (Q * nat) :=
  fold_right insert_near [] l.

(** [fit] rejects an empty matrix, as scikit-learn's input validation
    does. *)
Definition brute_fit (X : list (list Q)) : result (list (list Q)) :=
  match X with
  | [] => Raise ValueError
  | _ => Ok X
  end.

(** [kneighbors] rejects a query for more neighbours than fitted rows. *)
Definition brute_kneighbors (X : list (list Q)) (row : list Q) (n : nat)
  : result (list (Q * nat)) :=
  if (List.length X <? n)%nat then Raise ValueError
  else
    Ok (firstn n (nearest_first
                    (combine (map (cosine_distance row) X) (seq 0 (List.length X))))).

(** A stable and an unstable instance of [sort_values]: both sort by mean
    rating descending; the second returns equal means in the reverse of
    their input order. *)
Definition stable_sort_values (l : list (Z * Q)) : list (Z * Q) := sorted_desc l.

Definition unstable_sort_values (l : list (Z * Q)) : list (Z * Q) :=
  sorted_desc (rev l).

Definition rate (u m r : Z) : rating_row := mk_rating u m (inject_Z r).

Definition demo_movies : list movie_row :=
  [ mk_movie 1 "Alien"; mk_movie 2 "Brazil"; mk_movie 3 "Casino";
    mk_movie 4 "Dune"; mk_movie 5 "Fargo"; mk_movie 6 "Gattaca";
    mk_movie 7 "Heat"; mk_movie 8 "Ikiru"; mk_movie 9 "Jaws";
    mk_movie 10 "Kundun"; mk_movie 11 "Laura"; mk_movie 12 "Marty" ]%Z.

Definition demo_ratings : list rating_row :=
  [ rate 1 1 5;
    rate 2 2 5;
    rate 1 3 3; rate 2 3 4;
    rate 1 4 4; rate 2 4 3;
    rate 1 5 2; rate 2 5 2; rate 3 5 1;
    rate 1 6 2; rate 2 6 1; rate 3 6 2;
    rate 1 7 1; rate 2 7 2; rate 3 7 2;
    rate 1 8 4; rate 3 8 3;
    rate 1 9 3; rate 3 9 4;
    rate 2 10 4; rate 3 10 3;
    rate 2 11 3; rate 3 11 4;
    rate 3 12 5 ]%Z.

(** The globals of the module loaded on the demo data. *)
Definition demo_engine : engine (list (list Q)) :=
  let merged := merge demo_ratings demo_movies in
  let piv0 :=
    mk_pivot
      [1; 2; 3; 4; 5; 6; 7; 8; 9; 10; 11; 12]%Z
      [1; 2; 3]%Z
      [ [5; 0; 0]; [0; 5; 0]; [3; 4; 0]; [4; 3; 0]; [2; 2; 1]; [2; 1; 2];
        [1; 2; 2]; [4; 0; 3]; [3; 0; 4]; [0; 4; 3]; [0; 3; 4]; [0; 0; 5] ]%Q in
  mk_engine demo_movies merged piv0 (values piv0) (values piv0).

(** [sorted_recs] for the seeds 1 and 2 on the demo data (the scores are
    sums of fractions, unreduced: 35/25 is 4/5 + 3/5). *)
Definition demo_sorted_recs : list (Z * Q) :=
  [ (4%Z, 35 # 25); (3%Z, 35 # 25); (5%Z, 12 # 9); (6%Z, 9 # 9);
    (7%Z, 9 # 9); (8%Z, 4 # 5); (10%Z, 4 # 5); (9%Z, 3 # 5);
    (11%Z, 3 # 5); (2%Z, 0); (1%Z, 0) ]%Q.

(** [recommendations] for the single seed 1 on the demo data. *)
Definition demo_recommendations_1 : dict :=
  [ (4%Z, 4 # 5); (8%Z, 4 # 5); (5%Z, 2 # 3); (6%Z, 2 # 3); (3%Z, 3 # 5);
    (9%Z, 3 # 5); (7%Z, 1 # 3); (2%Z, 0); (10%Z, 0); (11%Z, 0) ]%Q.

(** Three movies with pairwise distinct mean ratings (5, 10/3 and 7/3);
    the best rated one has a single rating. *)
Definition small_movies : list movie_row :=
  [ mk_movie 1 "Alien"; mk_movie 2 "Brazil"; mk_movie 3 "Casino" ]%Z.

Definition small_ratings : list rating_row :=
  [ rate 1 1 5;
    rate 1 2 3; rate 2 2 3; rate 3 2 4;
    rate 1 3 2; rate 2 3 2; rate 3 3 3 ]%Z.

Definition small_engine : engine (list (list Q)) :=
  let merged := merge small_ratings small_movies in
  let piv0 :=
    mk_pivot [1; 2; 3]%Z [1; 2; 3]%Z
      [ [5; 0; 0]; [3; 3; 4]; [2; 2; 3] ]%Q in
  mk_engine small_movies merged piv0 (values piv0) (values piv0).

(** Ratings that reference no movie of the catalogue. *)
Definition stray_ratings : list rating_row :=
  [ rate 1 101 5; rate 2 102 3 ]%Z.

(** ** Vocabulary of the properties *)

(** What a list of (id, score) pairs adds to the score of [x]. *)
Definition contribution (x : Z) (l : list (Z * Q)) : Q :=
  Qsum (map snd (filter (fun p => (fst p =? x)%Z) l)).

(** [a] may stand before [b] in a list sorted by score, highest first. *)
Definition score_ge (a b : Z * Q) : Prop := (snd b <= snd a)%Q.

(** The items whose score equals [v], in list order. *)
Definition with_score (v : Q) (l : list (Z * Q)) : list (Z * Q) :=
  filter (fun p => Qeq_bool (snd p) v) l.

(** The order the specification words for [sorted_recs]: total
    similarity descending, equal totals by movie id ascending. *)
Definition claimed_order (a b : Z * Q) : Prop :=
  (snd b < snd a)%Q \/ ((snd a == snd b)%Q /\ (fst a < fst b)%Z).

(** What the development asks of [sort_values]: the rows come back
    rearranged, highest rating first.  Nothing is asked of rows with equal
    ratings. *)
Definition sorts_descending (sort : list (Z * Q) -> list (Z * Q)) : Prop :=
  forall l, Permutation (sort l) l /\ StronglySorted score_ge (sort l).

(** The number of ratings of a movie in the merged data. *)
Definition rating_count (df : list merged_row) (id : Z) : Z :=
  Z.of_nat (List.length (filter (fun r => (m_movie_id r =? id)%Z) df)).

(** No two rows carry the same rating. *)
Definition distinct_ratings (l : list (Z * Q)) : Prop :=
  forall a b, In a l -> In b l -> (snd a == snd b)%Q -> a = b.

(** The fitted index answers every query for 11 neighbours of one of its
    rows, with positions of rows it holds; the matrix has one row per
    label of the pivot table. *)
Definition index_answers (model : Type)
  (kneighbors : model -> list Q -> nat -> result (list (Q * nat)))
  (g : engine model) : Prop :=
  List.length (df_sp g) = List.length (index (df_piv g)) /\
  forall row, In row (df_sp g) ->
    exists nb, kneighbors (rec_model g) row 11%nat = Ok nb /\
      forall d i, In (d, i) nb -> (i < List.length (index (df_piv g)))%nat.

(** ** The cleaned title (line 29) *)

(** The movies file is read as latin-1, so a character of a title is one
    byte and [\d] matches exactly the ten ASCII digits. *)
Definition is_digit (c : ascii) : bool :=
  (48 <=? nat_of_ascii c)%nat && (nat_of_ascii c <=? 57)%nat.

(** Do seven characters match the pattern [ \(\d{4}\)]? *)
Definition year_pattern (c0 c1 d1 d2 d3 d4 c6 : ascii) : bool :=
  Ascii.eqb c0 " " && Ascii.eqb c1 "(" &&
  is_digit d1 && is_digit d2 && is_digit d3 && is_digit d4 &&
  Ascii.eqb c6 ")".

(** [str.replace(r' \(\d{4}\)', '', regex=True)] on one title: the
    matches are found from left to right, the search resumes after each
    match. *)
Fixpoint title_clean (s : string) : string :=
  match s with
  | EmptyString => EmptyString
  | String c0 s' =>
      match s' with
      | String c1 (String d1 (String d2 (String d3 (String d4 (String c6 rest))))) =>
          if year_pattern c0 c1 d1 d2 d3 d4 c6 then title_clean rest
          else String c0 (title_clean s')
      | _ => String c0 (title_clean s')
      end
  end.

(** The column [movie_title_clean] of a row of [df_movies]. *)
Definition movie_title_clean (m : movie_row) : string :=
  title_clean (movie_title m).

(** ** The [/recommend] route (lines 186-206) *)

(** Which of the two headers the page carries; the first one shows
    [valid_selection_count]. *)
Inductive header : Set :=
| selection_header (valid_selection_count : nat)
| top_rated_header.

Section Route.

Variable model : Type.
Variable kneighbors : model -> list Q -> nat -> result (list (Q * nat)).
Variable sort_values : list (Z * Q) -> list (Z * Q).
Variable g : engine model.

(** Python's [str.isdigit], [int] on a string and [list(set(...))], which
    lists the distinct elements in an order of its own. *)
Variable isdigit : string -> bool.
Variable int : string -> result Z.
Variable list_of_set : list Z -> list Z.

(** [movie_id_str and movie_id_str.isdigit()]: a missing field and an
    empty string are false. *)
Definition field_is_id (movie_id_str : option string) : bool :=
  match movie_id_str with
  | Some (String c s) => isdigit (String c s)
  | _ => false
  end.

(** The loop over the form fields; [form] is [request.form.get]. *)
Fixpoint selected_ids (form : string -> option string) (keys : list string)
  (movie_ids : list Z) : result (list Z) :=
  match keys with
  | [] => Ok movie_ids
  | key :: rest =>
      let movie_id_str := form key in
      if field_is_id movie_id_str then
        match movie_id_str with
        | Some s => id <- int s ;; selected_ids form rest (movie_ids ++ [id])
        | None => selected_ids form rest movie_ids
        end
      else selected_ids form rest movie_ids
  end.

(** [recommend] up to the rendering of the page: the header chosen and
    the titles listed under it. *)
Definition recommend (form : string -> option string)
  : result (header * list string) :=
  movie_ids <- selected_ids form ["movie1"; "movie2"; "movie3"]%string [] ;;
  let valid_selection_count := List.length (nodup Z.eq_dec movie_ids) in
  if (3 <=? valid_selection_count)%nat then
    recommendations <- get_recommendations kneighbors g (list_of_set movie_ids) ;;
    Ok (selection_header valid_selection_count, recommendations)
  else
    Ok (top_rated_header, get_top_rated_movies sort_values g).

End Route.

(** What the development asks of [list(set(l))]: the distinct elements of
    [l], each once. *)
Definition lists_the_set (list_of_set : list Z -> list Z) : Prop :=
  forall l, NoDup (list_of_set l) /\ forall x, In x (list_of_set l) <-> In x l.

(** Concrete instances for the examples: the ASCII digits, decimal
    conversion, and the set listed in order of first occurrence. *)
Definition ascii_isdigit (s : string) : bool :=
  match s with
  | EmptyString => false
  | _ => forallb is_digit (list_ascii_of_string s)
  end.

Definition decimal_int (s : string) : result Z :=
  if ascii_isdigit s then
    Ok (fold_left (fun n c => 10 * n + Z.of_nat (nat_of_ascii c - 48))%Z
                  (list_ascii_of_string s) 0%Z)
  else Raise ValueError.

Definition first_occurrences (l : list Z) : list Z := rev (nodup Z.eq_dec (rev l)).

(** A form with the three fields filled in. *)
Definition demo_form (m1 m2 m3 : string) (key : string) : option string :=
  if String.eqb key "movie1" then Some m1
  else if String.eqb key "movie2" then Some m2
  else if String.eqb key "movie3" then Some m3
  else None.


(** The (movie, user) key of a merged row. *)
Definition entry_key (r : merged_row) : Z * Z := (m_movie_id r, m_userId r).

(** * Properties *)

(** ** Membership, selection and titles *)

Lemma in_list_In (x : Z) (l : list Z) : in_list x l = true <-> In x l.
Proof.
  unfold in_list. rewrite existsb_exists. split.
  - intros [y [Hy Heq]]. apply Z.eqb_eq in Heq. now subst.
  - intros H. exists x. split; [assumption | apply Z.eqb_refl].
Qed.

Lemma in_list_false (x : Z) (l : list Z) : in_list x l = false <-> ~ In x l.
Proof.
  rewrite <- in_list_In. destruct (in_list x l); intuition congruence.
Qed.

(** What the selection loop has appended so far never leaves the list,
    and everything it appends passed the [not in movie_ids] test. *)
Lemma select_final_not_seed (movie_ids : list Z) (sorted_recs : list (Z * Q)) :
  forall final_recs x,
    In x (select_final movie_ids sorted_recs final_recs) ->
    In x final_recs \/ (In x (map fst sorted_recs) /\ ~ In x movie_ids).
Proof.
  induction sorted_recs as [| [rec_id s] rest IH]; intros acc x Hx;
    cbn [select_final map fst In] in *.
  - now left.
  - destruct (in_list rec_id movie_ids) eqn:Hmem; cbn [negb] in Hx.
    + destruct (5 <=? List.length acc)%nat.
      * now left.
      * destruct (IH _ _ Hx) as [H | [H1 H2]]; [now left | right; auto].
    + apply in_list_false in Hmem.
      assert (Hstep : In x (acc ++ [rec_id]) ->
                      In x acc \/ (rec_id = x \/ In x (map fst rest)) /\ ~ In x movie_ids).
      { intros H. apply in_app_or in H. destruct H as [H | [H | []]].
        - now left.
        - subst. right. auto. }
      destruct (5 <=? List.length (acc ++ [rec_id]))%nat.
      * auto.
      * destruct (IH _ _ Hx) as [H | [H1 H2]]; [auto | right; auto].
Qed.

(** The loop leaves as soon as five ids are chosen. *)
Lemma select_final_length (movie_ids : list Z) (sorted_recs : list (Z * Q)) :
  forall final_recs,
    (List.length final_recs < 5)%nat ->
    (List.length (select_final movie_ids sorted_recs final_recs) <= 5)%nat.
Proof.
  induction sorted_recs as [| [rec_id s] rest IH]; intros acc Hacc;
    cbn [select_final].
  - lia.
  - destruct (negb (in_list rec_id movie_ids)).
    + destruct (5 <=? List.length (acc ++ [rec_id]))%nat eqn:Hfull.
      * rewrite length_app in *. simpl in *. lia.
      * apply Nat.leb_gt in Hfull. now apply IH.
    + destruct (5 <=? List.length acc)%nat eqn:Hfull.
      * lia.
      * now apply IH.
Qed.

(** The selection only looks at the seeds through the membership test on
    the candidate ids. *)
Lemma select_final_ext (ids1 ids2 : list Z) (sorted_recs : list (Z * Q)) :
  (forall x, In x (map fst sorted_recs) -> in_list x ids1 = in_list x ids2) ->
  forall final_recs,
    select_final ids1 sorted_recs final_recs = select_final ids2 sorted_recs final_recs.
Proof.
  induction sorted_recs as [| [rec_id s] rest IH]; intros Hsame acc;
    cbn [select_final].
  - reflexivity.
  - rewrite (Hsame rec_id) by (simpl; auto).
    destruct (negb (in_list rec_id ids2)).
    + destruct (5 <=? List.length (acc ++ [rec_id]))%nat; [reflexivity |].
      apply IH. intros x Hx. apply Hsame. simpl. auto.
    + destruct (5 <=? List.length acc)%nat; [reflexivity |].
      apply IH. intros x Hx. apply Hsame. simpl. auto.
Qed.

Lemma title_series_In (movies : list movie_row) (id : Z) (t : string) :
  In t (title_series movies id) <-> In (mk_movie id t) movies.
Proof.
  unfold title_series. rewrite in_map_iff. split.
  - intros [[id' t'] [Ht Hin]]. apply filter_In in Hin. simpl in *.
    destruct Hin as [Hin Heq]. apply Z.eqb_eq in Heq. now subst.
  - intros Hin. exists (mk_movie id t). split; [reflexivity |].
    apply filter_In. split; [assumption | apply Z.eqb_refl].
Qed.

Lemma titles_of_length (movies : list movie_row) (ids : list Z) :
  (List.length (titles_of movies ids) <= List.length ids)%nat.
Proof.
  induction ids as [| id rest IH]; simpl.
  - lia.
  - destruct (title_series movies id); simpl; lia.
Qed.

Lemma titles_of_In (movies : list movie_row) (ids : list Z) (t : string) :
  In t (titles_of movies ids) ->
  exists id, In id ids /\ In (mk_movie id t) movies.
Proof.
  induction ids as [| id rest IH]; simpl.
  - intros [].
  - destruct (title_series movies id) as [| t0 ts] eqn:Hser.
    + intros H. destruct (IH H) as [id' [H1 H2]]. exists id'. auto.
    + intros [H | H].
      * subst. exists id. split; [now left |].
        apply title_series_In. rewrite Hser. now left.
      * destruct (IH H) as [id' [H1 H2]]. exists id'. auto.
Qed.

Lemma titles_of_app (movies : list movie_row) (ids1 ids2 : list Z) :
  titles_of movies (ids1 ++ ids2) = titles_of movies ids1 ++ titles_of movies ids2.
Proof.
  induction ids1 as [| id rest IH]; simpl.
  - reflexivity.
  - destruct (title_series movies id); simpl; now rewrite IH.
Qed.

(** An id without a row in the catalogue adds nothing to the titles. *)
Lemma titles_of_drop (movies : list movie_row) (ids1 ids2 : list Z) (id : Z) :
  (forall t, ~ In (mk_movie id t) movies) ->
  titles_of movies (ids1 ++ id :: ids2) = titles_of movies (ids1 ++ ids2).
Proof.
  intros Hnone. rewrite !titles_of_app. f_equal. simpl.
  destruct (title_series movies id) as [| t ts] eqn:Hser; [reflexivity |].
  exfalso. apply (Hnone t). apply title_series_In. rewrite Hser. now left.
Qed.

(** ** The dictionary *)

Lemma dict_get_set (d : dict) (k k' : Z) (v default : Q) :
  dict_get (dict_set d k v) k' default =
  if (k =? k')%Z then v else dict_get d k' default.
Proof.
  induction d as [| [k0 v0] rest IH]; simpl.
  - reflexivity.
  - destruct (k0 =? k)%Z eqn:H0; simpl.
    + apply Z.eqb_eq in H0. subst k0. destruct (k =? k')%Z; reflexivity.
    + destruct (k0 =? k')%Z eqn:H1.
      * apply Z.eqb_eq in H1. subst k0. rewrite Z.eqb_sym, H0. reflexivity.
      * apply IH.
Qed.

Lemma dict_set_keys (d : dict) (k : Z) (v : Q) (x : Z) :
  In x (map fst (dict_set d k v)) <-> x = k \/ In x (map fst d).
Proof.
  induction d as [| [k0 v0] rest IH]; simpl.
  - intuition.
  - destruct (k0 =? k)%Z eqn:H0; simpl.
    + apply Z.eqb_eq in H0. subst k0. intuition.
    + rewrite IH. intuition.
Qed.

Lemma dict_get_add_score (d : dict) (p : Z * Q) (x : Z) :
  dict_get (add_score d p) x 0 =
  if (fst p =? x)%Z then (dict_get d (fst p) 0 + snd p)%Q else dict_get d x 0.
Proof.
  destruct p as [k s]. unfold add_score. simpl. apply dict_get_set.
Qed.

(** An update keeps the keys in place; a new key goes to the end. *)
Lemma dict_set_order (d : dict) (k : Z) (v : Q) :
  map fst (dict_set d k v) =
  if in_list k (map fst d) then map fst d else map fst d ++ [k].
Proof.
  induction d as [| [k0 v0] rest IH]; simpl.
  - reflexivity.
  - rewrite (Z.eqb_sym k k0). destruct (k0 =? k)%Z; simpl.
    + reflexivity.
    + rewrite IH. destruct (in_list k (map fst rest)); reflexivity.
Qed.

(** Additivity: a run of updates adds to the score of [x] exactly the
    scores listed for [x]. *)
Lemma dict_get_fold_add (l : list (Z * Q)) :
  forall (d : dict) (x : Z),
    (dict_get (fold_left add_score l d) x 0 == dict_get d x 0 + contribution x l)%Q.
Proof.
  induction l as [| p rest IH]; intros d x; simpl.
  - unfold contribution. simpl. ring.
  - rewrite IH, dict_get_add_score. unfold contribution. simpl.
    destruct (fst p =? x)%Z eqn:Hk; simpl.
    + apply Z.eqb_eq in Hk. subst x. unfold Qsum. ring.
    + reflexivity.
Qed.

Lemma contribution_nonneg (x : Z) (l : list (Z * Q)) :
  (forall s, In (x, s) l -> 0 <= s)%Q -> (0 <= contribution x l)%Q.
Proof.
  unfold contribution. induction l as [| [k s] rest IH]; intros Hpos; simpl.
  - lra.
  - assert (Hrest : (0 <= Qsum (map snd (filter (fun p => (fst p =? x)%Z) rest)))%Q).
    { apply IH. intros s' Hs'. apply Hpos. now right. }
    destruct (k =? x)%Z eqn:Hk; simpl; [| assumption].
    apply Z.eqb_eq in Hk. subst k.
    assert (0 <= s)%Q by (apply Hpos; now left).
    unfold Qsum in *. lra.
Qed.

Lemma fold_add_keys (l : list (Z * Q)) :
  forall (d : dict) (x : Z),
    In x (map fst (fold_left add_score l d)) ->
    In x (map fst d) \/ In x (map fst l).
Proof.
  induction l as [| [k s] rest IH]; intros d x Hx; simpl in *.
  - now left.
  - destruct (IH _ _ Hx) as [H | H]; [| auto].
    apply dict_set_keys in H. destruct H as [H | H]; auto.
Qed.

(** ** The stable descending sort *)

Lemma Qlt_bool_true (x y : Q) : Qlt_bool x y = true <-> (x < y)%Q.
Proof.
  unfold Qlt_bool. rewrite negb_true_iff.
  destruct (Qle_bool y x) eqn:H.
  - apply Qle_bool_iff in H. split; [discriminate | lra].
  - split; [| reflexivity]. intros _.
    destruct (Qlt_le_dec x y) as [Hlt | Hle]; [assumption |].
    apply Qle_bool_iff in Hle. congruence.
Qed.

Lemma Qlt_bool_false (x y : Q) : Qlt_bool x y = false <-> (y <= x)%Q.
Proof.
  unfold Qlt_bool. rewrite negb_false_iff. apply Qle_bool_iff.
Qed.

Lemma insert_desc_perm (x : Z * Q) (l : list (Z * Q)) :
  Permutation (insert_desc x l) (x :: l).
Proof.
  induction l as [| y rest IH]; simpl.
  - apply Permutation_refl.
  - destruct (Qlt_bool (snd x) (snd y)).
    + eapply perm_trans; [apply perm_skip, IH | apply perm_swap].
    + apply Permutation_refl.
Qed.

Lemma sorted_desc_perm (l : list (Z * Q)) : Permutation (sorted_desc l) l.
Proof.
  induction l as [| x rest IH]; simpl.
  - apply perm_nil.
  - eapply perm_trans; [apply insert_desc_perm | now apply perm_skip].
Qed.

Lemma insert_desc_sorted (x : Z * Q) (l : list (Z * Q)) :
  StronglySorted score_ge l -> StronglySorted score_ge (insert_desc x l).
Proof.
  induction l as [| y rest IH]; intros Hs; simpl.
  - constructor; constructor.
  - inversion Hs as [| ? ? Hrest Hall]; subst.
    destruct (Qlt_bool (snd x) (snd y)) eqn:Hcmp.
    + apply Qlt_bool_true in Hcmp. constructor; [now apply IH |].
      eapply Permutation_Forall; [apply Permutation_sym, insert_desc_perm |].
      constructor; [unfold score_ge; lra | assumption].
    + apply Qlt_bool_false in Hcmp. constructor; [assumption |].
      constructor; [exact Hcmp |].
      eapply Forall_impl; [| exact Hall]. unfold score_ge. intros z Hz. lra.
Qed.

Lemma sorted_desc_sorted (l : list (Z * Q)) : StronglySorted score_ge (sorted_desc l).
Proof.
  induction l as [| x rest IH]; simpl.
  - constructor.
  - now apply insert_desc_sorted.
Qed.

Lemma insert_desc_stable (v : Q) (x : Z * Q) (l : list (Z * Q)) :
  with_score v (insert_desc x l) = with_score v (x :: l).
Proof.
  unfold with_score. induction l as [| y rest IH]; simpl.
  - reflexivity.
  - destruct (Qlt_bool (snd x) (snd y)) eqn:Hcmp; [| reflexivity].
    apply Qlt_bool_true in Hcmp. simpl. rewrite IH. simpl.
    destruct (Qeq_bool (snd x) v) eqn:Hx, (Qeq_bool (snd y) v) eqn:Hy; try reflexivity.
    apply Qeq_bool_iff in Hx, Hy. lra.
Qed.

Lemma sorted_desc_stable (v : Q) (l : list (Z * Q)) :
  with_score v (sorted_desc l) = with_score v l.
Proof.
  induction l as [| x rest IH]; simpl.
  - reflexivity.
  - rewrite insert_desc_stable. unfold with_score in *. simpl. now rewrite IH.
Qed.

(** ** The accumulation loop of [get_recommendations] *)

Lemma getitem_In (A : Type) (l : list A) (i : nat) (a : A) :
  getitem l i = Ok a -> In a l.
Proof.
  unfold getitem. destruct (nth_error l i) eqn:H; [| discriminate].
  intros Heq. injection Heq as <-. eapply nth_error_In. eassumption.
Qed.

Lemma mapM_getitem_In (A : Type) (l : list A) (rows : list nat) :
  forall ys, mapM (getitem l) rows = Ok ys -> forall y, In y ys -> In y l.
Proof.
  induction rows as [| i rest IH]; simpl; intros ys Hys y Hy.
  - injection Hys as <-. destruct Hy.
  - destruct (getitem l i) as [a |] eqn:Ha; [| discriminate]. simpl in Hys.
    destruct (mapM (getitem l) rest) as [ys' |] eqn:Hrest; [| discriminate].
    simpl in Hys. injection Hys as <-. destruct Hy as [<- | Hy].
    + eapply getitem_In. eassumption.
    + eapply IH; [reflexivity | assumption].
Qed.

Lemma mapM_getitem_total (A : Type) (l : list A) (rows : list nat) :
  (forall i, In i rows -> (i < List.length l)%nat) ->
  exists ys, mapM (getitem l) rows = Ok ys.
Proof.
  induction rows as [| i rest IH]; simpl; intros Hin.
  - now exists [].
  - destruct IH as [ys Hys]; [intros; apply Hin; auto |].
    unfold getitem at 1.
    destruct (nth_error l i) as [a |] eqn:Ha.
    + rewrite Hys. simpl. now exists (a :: ys).
    + apply nth_error_None in Ha. specialize (Hin i (or_introl eq_refl)). lia.
Qed.

Section Recommendations.

Variable model : Type.
Variable kneighbors : model -> list Q -> nat -> result (list (Q * nat)).
Variable g : engine model.

Lemma get_loc_unknown (idx : list Z) (key : Z) :
  ~ In key idx -> get_loc idx key = Raise KeyError.
Proof.
  induction idx as [| x rest IH]; simpl; intros Hnot.
  - reflexivity.
  - destruct (x =? key)%Z eqn:Hx.
    + apply Z.eqb_eq in Hx. tauto.
    + rewrite IH by tauto. reflexivity.
Qed.

Lemma get_loc_known (idx : list Z) (key : Z) :
  In key idx -> exists n, get_loc idx key = Ok n /\ (n < List.length idx)%nat.
Proof.
  induction idx as [| x rest IH]; simpl; intros Hin.
  - destruct Hin.
  - destruct (x =? key)%Z eqn:Hx.
    + exists 0%nat. split; [reflexivity | lia].
    + destruct Hin as [-> | Hin]; [rewrite Z.eqb_refl in Hx; discriminate |].
      destruct (IH Hin) as [n [Hn Hlt]]. rewrite Hn. simpl.
      exists (S n). split; [reflexivity | lia].
Qed.

(** An id the pivot table does not list raises [KeyError] at [get_loc]. *)
Lemma similar_movies_unknown (movie_id : Z) :
  ~ In movie_id (index (df_piv g)) ->
  similar_movies kneighbors g movie_id = Raise KeyError.
Proof.
  intros Hnot. unfold similar_movies. now rewrite get_loc_unknown.
Qed.

(** Every neighbour id is a label of the pivot table. *)
Lemma similar_movies_keys (movie_id : Z) (similar : list (Z * Q)) :
  similar_movies kneighbors g movie_id = Ok similar ->
  forall x, In x (map fst similar) -> In x (index (df_piv g)).
Proof.
  unfold similar_movies. intros H x Hx.
  destruct (get_loc (index (df_piv g)) movie_id) as [idx |]; [| discriminate].
  simpl in H. destruct (getitem (df_sp g) idx) as [row |]; [| discriminate].
  simpl in H. destruct (kneighbors (rec_model g) row 11) as [nb |]; [| discriminate].
  simpl in H.
  destruct (mapM (getitem (index (df_piv g))) (map snd nb)) as [ids |] eqn:Hids;
    [| discriminate].
  simpl in H. injection H as <-.
  apply in_map_iff in Hx. destruct Hx as [[id s] [Hfst Hin]]. simpl in Hfst. subst.
  apply in_combine_l in Hin. eapply mapM_getitem_In; eassumption.
Qed.

Lemma similar_movies_total (movie_id : Z) :
  index_answers kneighbors g ->
  In movie_id (index (df_piv g)) ->
  exists similar, similar_movies kneighbors g movie_id = Ok similar.
Proof.
  intros [Hlen Hans] Hin. unfold similar_movies.
  destruct (get_loc_known _ _ Hin) as [n [Hn Hlt]]. rewrite Hn. simpl.
  unfold getitem at 1.
  destruct (nth_error (df_sp g) n) as [row |] eqn:Hrow.
  - simpl. destruct (Hans row) as [nb [Hnb Hvalid]].
    { eapply nth_error_In. eassumption. }
    rewrite Hnb. simpl.
    destruct (mapM_getitem_total (index (df_piv g)) (map snd nb)) as [ids Hids].
    { intros i Hi. apply in_map_iff in Hi. destruct Hi as [[d i'] [Heq Hi]].
      simpl in Heq. subst. eapply Hvalid. eassumption. }
    rewrite Hids. simpl. eauto.
  - apply nth_error_None in Hrow. lia.
Qed.

Lemma accumulate_app (ids1 ids2 : list Z) :
  forall d,
    accumulate kneighbors g (ids1 ++ ids2) d =
    (d' <- accumulate kneighbors g ids1 d ;; accumulate kneighbors g ids2 d').
Proof.
  induction ids1 as [| id rest IH]; intros d; simpl.
  - reflexivity.
  - destruct (similar_movies kneighbors g id) as [similar | []]; auto.
Qed.

(** The [except KeyError: continue] branch. *)
Lemma accumulate_skip (ids1 ids2 : list Z) (u : Z) (d : dict) :
  ~ In u (index (df_piv g)) ->
  accumulate kneighbors g (ids1 ++ u :: ids2) d =
  accumulate kneighbors g (ids1 ++ ids2) d.
Proof.
  intros Hu. rewrite !accumulate_app.
  destruct (accumulate kneighbors g ids1 d) as [d' |]; simpl; [| reflexivity].
  now rewrite similar_movies_unknown.
Qed.

Lemma accumulate_all_unknown (ids : list Z) (d : dict) :
  (forall u, In u ids -> ~ In u (index (df_piv g))) ->
  accumulate kneighbors g ids d = Ok d.
Proof.
  induction ids as [| id rest IH]; simpl; intros Hu.
  - reflexivity.
  - rewrite similar_movies_unknown by (apply Hu; auto). apply IH.
    intros u Hin. apply Hu. auto.
Qed.

Lemma accumulate_keys (ids : list Z) :
  forall d r,
    accumulate kneighbors g ids d = Ok r ->
    forall x, In x (map fst r) -> In x (map fst d) \/ In x (index (df_piv g)).
Proof.
  induction ids as [| id rest IH]; simpl; intros d r Hr x Hx.
  - injection Hr as <-. now left.
  - destruct (similar_movies kneighbors g id) as [similar | e] eqn:Hsim.
    + destruct (IH _ _ Hr _ Hx) as [H | H]; [| now right].
      unfold add_neighbours in H. apply fold_add_keys in H.
      destruct H as [H | H]; [now left | right].
      eapply similar_movies_keys; [eassumption |].
      destruct similar as [| p similar']; [destruct H | simpl in *; auto].
    + destruct e; try discriminate. eauto.
Qed.

Lemma accumulate_total (ids : list Z) :
  index_answers kneighbors g ->
  forall d, exists r, accumulate kneighbors g ids d = Ok r.
Proof.
  intros Hans. induction ids as [| id rest IH]; simpl; intros d.
  - eauto.
  - destruct (in_dec Z.eq_dec id (index (df_piv g))) as [Hin | Hnot].
    + destruct (similar_movies_total _ Hans Hin) as [similar ->]. apply IH.
    + rewrite similar_movies_unknown by assumption. apply IH.
Qed.

Lemma get_recommendations_unfold (movie_ids : list Z) :
  get_recommendations kneighbors g movie_ids =
  (recs <- accumulate kneighbors g movie_ids [] ;;
   Ok (titles_of (df_movies g)
         (select_final movie_ids (sorted_desc recs) []))).
Proof.
  unfold get_recommendations, final_recs_of, sorted_recs_of, recommendations_of.
  destruct (accumulate kneighbors g movie_ids []); reflexivity.
Qed.

End Recommendations.

(** ** Grouping and the popularity statistics *)

Lemma insert_uniq_In (x y : Z) (l : list Z) :
  In y (insert_uniq x l) <-> y = x \/ In y l.
Proof.
  induction l as [| z rest IH]; simpl.
  - intuition.
  - destruct (x <? z)%Z; [simpl; intuition |].
    destruct (x =? z)%Z eqn:Heq.
    + apply Z.eqb_eq in Heq. subst. simpl. intuition.
    + simpl. rewrite IH. intuition.
Qed.

Lemma sorted_unique_In (y : Z) (l : list Z) : In y (sorted_unique l) <-> In y l.
Proof.
  induction l as [| x rest IH]; simpl.
  - reflexivity.
  - rewrite insert_uniq_In, IH. intuition.
Qed.

Lemma insert_uniq_sorted (x : Z) (l : list Z) :
  StronglySorted Z.lt l -> StronglySorted Z.lt (insert_uniq x l).
Proof.
  induction l as [| z rest IH]; intros Hs; simpl.
  - constructor; constructor.
  - inversion Hs as [| ? ? Hrest Hall]; subst.
    destruct (x <? z)%Z eqn:Hlt.
    + apply Z.ltb_lt in Hlt. constructor; [assumption |].
      constructor; [assumption |].
      eapply Forall_impl; [| exact Hall]. intros; simpl in *; lia.
    + destruct (x =? z)%Z eqn:Heq; [assumption |].
      apply Z.ltb_ge in Hlt. apply Z.eqb_neq in Heq.
      constructor; [now apply IH |].
      apply Forall_forall. intros y Hy. apply insert_uniq_In in Hy.
      destruct Hy as [-> | Hy]; [lia |].
      rewrite Forall_forall in Hall. now apply Hall.
Qed.

Lemma sorted_unique_sorted (l : list Z) : StronglySorted Z.lt (sorted_unique l).
Proof.
  induction l as [| x rest IH]; simpl.
  - constructor.
  - now apply insert_uniq_sorted.
Qed.

(** Each movie of the merged data is one group. *)
Lemma sorted_unique_NoDup (l : list Z) : NoDup (sorted_unique l).
Proof.
  generalize (sorted_unique_sorted l).
  induction (sorted_unique l) as [| x rest IH]; intros Hs.
  - constructor.
  - inversion Hs as [| ? ? Hrest Hall]; subst. constructor; [| now apply IH].
    intros Hin. rewrite Forall_forall in Hall. specialize (Hall _ Hin). lia.
Qed.

Lemma firstn_subset (A : Type) (n : nat) (l : list A) (x : A) :
  In x (firstn n l) -> In x l.
Proof.
  revert l. induction n as [| n IH]; intros [| y rest]; simpl; try tauto.
  intros [H | H]; [now left | right; now apply IH].
Qed.

Section Popularity.

Variable model : Type.
Variable sort_values : list (Z * Q) -> list (Z * Q).
Variable g : engine model.

(** The counts [df_count_rating] holds: one per movie of the merged data,
    the number of its ratings. *)
Lemma df_count_rating_counts :
  df_count_rating g =
  map (fun id => (id, rating_count (df_merged g) id))
      (sorted_unique (map m_movie_id (df_merged g))).
Proof.
  unfold df_count_rating, groupby_rating, rating_count.
  rewrite map_map. apply map_ext. intros id. simpl. now rewrite length_map.
Qed.

Lemma min_ratings_threshold_median :
  min_ratings_threshold g =
  median (map (rating_count (df_merged g))
              (sorted_unique (map m_movie_id (df_merged g)))).
Proof.
  unfold min_ratings_threshold. rewrite df_count_rating_counts, map_map. reflexivity.
Qed.

Lemma popular_movies_In (id : Z) :
  In id (popular_movies g) <->
  In id (map m_movie_id (df_merged g)) /\
  exists t, min_ratings_threshold g = Some t /\
            (t <= inject_Z (rating_count (df_merged g) id))%Q.
Proof.
  unfold popular_movies. rewrite in_map_iff. split.
  - intros [[id' c] [Hid Hin]]. simpl in Hid. subst id'.
    apply filter_In in Hin. destruct Hin as [Hin Hge]. simpl in Hge.
    rewrite df_count_rating_counts in Hin. apply in_map_iff in Hin.
    destruct Hin as [id' [Heq Hin]]. injection Heq as -> <-.
    split; [now apply (proj1 (sorted_unique_In _ _)) |].
    unfold ge_threshold in Hge.
    destruct (min_ratings_threshold g) as [t |]; [| discriminate].
    exists t. split; [reflexivity | now apply Qle_bool_iff].
  - intros [Hin [t [Ht Hle]]].
    exists (id, rating_count (df_merged g) id). split; [reflexivity |].
    apply filter_In. split.
    + rewrite df_count_rating_counts. apply in_map_iff. exists id.
      split; [reflexivity | now apply (proj2 (sorted_unique_In _ _))].
    + simpl. rewrite Ht. simpl. now apply Qle_bool_iff.
Qed.

Lemma df_mean_rating_ids (id : Z) (m : Q) :
  In (id, m) (df_mean_rating g) -> In id (map m_movie_id (df_merged g)).
Proof.
  unfold df_mean_rating, groupby_rating. rewrite map_map. intros H.
  apply in_map_iff in H. destruct H as [id' [Heq Hin]]. simpl in Heq.
  injection Heq as -> _. now apply (proj1 (sorted_unique_In _ _)).
Qed.

(** The rows that survive the [isin(popular_movies)] filter. *)
Lemma df_mean_popular_In (id : Z) (m : Q) :
  In (id, m) (df_mean_popular g) <->
  In (id, m) (df_mean_rating g) /\
  exists t, min_ratings_threshold g = Some t /\
            (t <= inject_Z (rating_count (df_merged g) id))%Q.
Proof.
  unfold df_mean_popular. rewrite filter_In. simpl. rewrite in_list_In, popular_movies_In.
  split.
  - intros [Hin [_ Ht]]. auto.
  - intros [Hin Ht]. repeat split; auto. eapply df_mean_rating_ids. eassumption.
Qed.

Lemma top_5_ids_In (id : Z) :
  sorts_descending sort_values ->
  In id (top_5_ids sort_values g) ->
  exists m, In (id, m) (df_mean_popular g).
Proof.
  intros Hsort Hin. unfold top_5_ids in Hin. apply in_map_iff in Hin.
  destruct Hin as [[id' m] [Heq Hin]]. simpl in Heq. subst id'.
  exists m. destruct (Hsort (df_mean_popular g)) as [Hperm _].
  eapply Permutation_in; [exact Hperm |]. eapply firstn_subset. eassumption.
Qed.

Lemma top_5_ids_length : (List.length (top_5_ids sort_values g) <= 5)%nat.
Proof.
  unfold top_5_ids. rewrite length_map, length_firstn. lia.
Qed.

(** The head of a list sorted highest first is a maximum; with distinct
    ratings it is the only one. *)
Lemma sorted_head_is_best (s : list (Z * Q)) (l : list (Z * Q)) (best : Z * Q) :
  Permutation s l ->
  StronglySorted score_ge s ->
  distinct_ratings l ->
  In best l ->
  (forall a, In a l -> (snd a <= snd best)%Q) ->
  hd_error s = Some best.
Proof.
  intros Hperm Hsorted Hdistinct Hbest Hmax.
  destruct s as [| top rest].
  - apply Permutation_nil in Hperm. subst. destruct Hbest.
  - simpl. f_equal. inversion Hsorted as [| ? ? _ Hall]; subst.
    assert (Htop : In top l) by (eapply Permutation_in; [exact Hperm | now left]).
    apply Hdistinct; [assumption | assumption |].
    apply Qle_antisym; [now apply Hmax |].
    apply Permutation_sym in Hperm.
    destruct (Permutation_in _ Hperm Hbest) as [<- | Hrest]; [apply Qle_refl |].
    rewrite Forall_forall in Hall. exact (Hall _ Hrest).
Qed.

End Popularity.

(** * The claims *)

(** ** Seeds are never recommended *)

(** C1.  Whatever seed list [movie_ids] is passed to
    [get_recommendations], the titles it returns are those of the ids in
    [final_recs], and no id of [movie_ids] is among them. *)
Theorem seeds_never_recommended
  (model : Type) (kneighbors : model -> list Q -> nat -> result (list (Q * nat)))
  (g : engine model) (movie_ids : list Z) (titles : list string) :
  get_recommendations kneighbors g movie_ids = Ok titles ->
  exists final_recs,
    final_recs_of kneighbors g movie_ids = Ok final_recs /\
    titles = titles_of (df_movies g) final_recs /\
    forall id, In id final_recs -> ~ In id movie_ids.
Proof.
  unfold get_recommendations, final_recs_of. intros H.
  destruct (sorted_recs_of kneighbors g movie_ids) as [sorted_recs |]; [| discriminate].
  simpl in *. injection H as <-.
  eexists. split; [reflexivity |]. split; [reflexivity |].
  intros id Hid.
  destruct (select_final_not_seed _ _ _ _ Hid) as [[] | [_ Hnot]]. exact Hnot.
Qed.

Lemma seeds_never_recommended_demo :
  exists final_recs,
    final_recs_of brute_kneighbors demo_engine [1; 2]%Z = Ok final_recs /\
    ["Dune"; "Casino"; "Fargo"; "Gattaca"; "Heat"]%string
      = titles_of (df_movies demo_engine) final_recs /\
    forall id, In id final_recs -> ~ In id [1; 2]%Z.
Proof.
  apply (seeds_never_recommended brute_kneighbors demo_engine [1; 2]%Z).
  vm_compute. reflexivity.
Defined.

(** ** Unknown seeds and the empty seed list *)

(** C3.  A seed id that the similarity index does not know is skipped:
    the call returns exactly what it returns without that seed, and when
    no seed is known it returns the empty list. *)
Theorem unknown_seed_skipped
  (model : Type) (kneighbors : model -> list Q -> nat -> result (list (Q * nat)))
  (g : engine model) :
  (forall ids1 ids2 u,
      ~ In u (index (df_piv g)) ->
      get_recommendations kneighbors g (ids1 ++ u :: ids2) =
      get_recommendations kneighbors g (ids1 ++ ids2)) /\
  (forall movie_ids,
      (forall u, In u movie_ids -> ~ In u (index (df_piv g))) ->
      get_recommendations kneighbors g movie_ids = Ok []).
Proof.
  split.
  - intros ids1 ids2 u Hu. rewrite !get_recommendations_unfold.
    rewrite accumulate_skip by assumption.
    destruct (accumulate kneighbors g (ids1 ++ ids2) []) as [recs |] eqn:Hacc;
      [| reflexivity].
    simpl. do 2 f_equal. apply select_final_ext. intros x Hx.
    assert (Hidx : In x (index (df_piv g))).
    { destruct (accumulate_keys _ _ _ _ Hacc x) as [[] | H]; [| exact H].
      eapply Permutation_in; [| exact Hx].
      apply Permutation_map, sorted_desc_perm. }
    assert (Hne : x <> u) by (intros ->; contradiction).
    unfold in_list. rewrite !existsb_app. simpl.
    apply Z.eqb_neq in Hne. now rewrite Hne.
  - intros movie_ids Hall. rewrite get_recommendations_unfold.
    now rewrite accumulate_all_unknown.
Qed.

(** On the demo catalogue the ids 99 and 100 are unknown. *)
Lemma unknown_seed_skipped_demo :
  get_recommendations brute_kneighbors demo_engine ([1] ++ 99 :: [2])%Z =
  get_recommendations brute_kneighbors demo_engine ([1] ++ [2])%Z /\
  get_recommendations brute_kneighbors demo_engine [99; 100]%Z = Ok [].
Proof.
  destruct (unknown_seed_skipped brute_kneighbors demo_engine) as [Hskip Hnone].
  split.
  - apply Hskip. vm_compute. intuition discriminate.
  - apply Hnone. intros u Hu. vm_compute in Hu.
    destruct Hu as [<- | [<- | []]]; vm_compute; intuition discriminate.
Defined.

(** C10.  With an empty collection of seed ids [get_recommendations]
    returns the empty list; no exception is raised. *)
Theorem no_seed_no_recommendation
  (model : Type) (kneighbors : model -> list Q -> nat -> result (list (Q * nat)))
  (g : engine model) :
  get_recommendations kneighbors g [] = Ok [].
Proof. reflexivity. Qed.

(** ** The order of [sorted_recs] *)

(** The neighbours of the seeds 1 and 2 on the demo catalogue, with their
    cosine similarities: movie 4 is nearer to seed 1 than movie 3, and
    movie 3 nearer to seed 2 than movie 4, by the same amounts. *)
Example demo_neighbours :
  similar_movies brute_kneighbors demo_engine 1 =
    Ok [ (1%Z, 1); (4%Z, 4 # 5); (8%Z, 4 # 5); (5%Z, 2 # 3); (6%Z, 2 # 3);
         (3%Z, 3 # 5); (9%Z, 3 # 5); (7%Z, 1 # 3); (2%Z, 0); (10%Z, 0);
         (11%Z, 0) ]%Q /\
  similar_movies brute_kneighbors demo_engine 2 =
    Ok [ (2%Z, 1); (3%Z, 4 # 5); (10%Z, 4 # 5); (5%Z, 2 # 3); (7%Z, 2 # 3);
         (4%Z, 3 # 5); (11%Z, 3 # 5); (6%Z, 1 # 3); (1%Z, 0); (8%Z, 0);
         (9%Z, 0) ]%Q.
Proof. split; vm_compute; reflexivity. Qed.

(** C7, as the code has it.  [sorted_recs] holds the accumulated items
    rearranged by total similarity, highest first; items with equal
    totals keep the order in which the dictionary lists them, which is the
    order in which the movies were first met in the accumulation loop. *)
Theorem sorted_recs_stable_descending
  (model : Type) (kneighbors : model -> list Q -> nat -> result (list (Q * nat)))
  (g : engine model) (movie_ids : list Z) (sorted_recs : list (Z * Q)) :
  sorted_recs_of kneighbors g movie_ids = Ok sorted_recs ->
  exists recommendations,
    recommendations_of kneighbors g movie_ids = Ok recommendations /\
    Permutation sorted_recs recommendations /\
    StronglySorted score_ge sorted_recs /\
    forall v, with_score v sorted_recs = with_score v recommendations.
Proof.
  unfold sorted_recs_of. intros H.
  destruct (recommendations_of kneighbors g movie_ids) as [recs |]; [| discriminate].
  simpl in H. injection H as <-. exists recs.
  split; [reflexivity |]. split; [apply sorted_desc_perm |].
  split; [apply sorted_desc_sorted | intros v; apply sorted_desc_stable].
Qed.

Lemma sorted_recs_stable_descending_demo :
  exists recommendations,
    recommendations_of brute_kneighbors demo_engine [1; 2]%Z = Ok recommendations /\
    Permutation demo_sorted_recs recommendations /\
    StronglySorted score_ge demo_sorted_recs /\
    forall v,
      with_score v demo_sorted_recs = with_score v recommendations.
Proof.
  apply (sorted_recs_stable_descending brute_kneighbors demo_engine [1; 2]%Z).
  vm_compute. reflexivity.
Defined.

(** C7 as it is worded fails on the demo catalogue.  Seeds 1 and 2: movie
    4 is first met among the neighbours of seed 1 before movie 3, both
    total 4/5 + 3/5, and [sorted_recs] lists 4 before 3. *)
Lemma sorted_recs_ties_not_by_id :
  sorted_recs_of brute_kneighbors demo_engine [1; 2]%Z = Ok demo_sorted_recs /\
  ~ (forall sorted_recs,
        sorted_recs_of brute_kneighbors demo_engine [1; 2]%Z = Ok sorted_recs ->
        StronglySorted claimed_order sorted_recs).
Proof.
  split; [vm_compute; reflexivity |].
  intros Hclaim.
  specialize (Hclaim _ eq_refl). vm_compute in Hclaim.
  inversion Hclaim as [| ? ? _ Hall]; subst.
  inversion Hall as [| ? ? Hc _]; subst.
  destruct Hc as [Hlt | [_ Hlt]]; vm_compute in Hlt; discriminate.
Qed.

(** ** Aggregation across seeds *)

Lemma Qle_added (a b c : Q) : (a == b + c)%Q -> (0 <= c)%Q -> (b <= a)%Q.
Proof. intros Heq Hc. rewrite Heq. lra. Qed.

Lemma recommendations_of_one
  (model : Type) (kneighbors : model -> list Q -> nat -> result (list (Q * nat)))
  (g : engine model) (A : Z) (r : dict) :
  recommendations_of kneighbors g [A] = Ok r ->
  (similar_movies kneighbors g A = Raise KeyError /\ r = []) \/
  (exists similar, similar_movies kneighbors g A = Ok similar /\
                   r = add_neighbours [] similar).
Proof.
  unfold recommendations_of. simpl.
  destruct (similar_movies kneighbors g A) as [similar | e].
  - intros H. injection H as <-. right. eauto.
  - destruct e; try discriminate. intros H. injection H as <-. now left.
Qed.

(** C8.  Let [B] be a seed whose neighbour list gives movie [X] positive
    similarity only.  Then the accumulated score of [X] for the seeds [A]
    and [B], in either order, is its score for [A] alone plus what the
    neighbours of [B] add, and is not smaller than its score for [A]
    alone. *)
Theorem aggregation_additive_monotone
  (model : Type) (kneighbors : model -> list Q -> nat -> result (list (Q * nat)))
  (g : engine model) (A B X : Z) (similar_B : list (Z * Q)) (r1 : dict) :
  similar_movies kneighbors g B = Ok similar_B ->
  (forall s, In (X, s) similar_B -> (0 < s)%Q) ->
  recommendations_of kneighbors g [A] = Ok r1 ->
  (exists r2,
      recommendations_of kneighbors g [A; B] = Ok r2 /\
      (dict_get r2 X 0 == dict_get r1 X 0 + contribution X (tl similar_B))%Q /\
      (dict_get r1 X 0 <= dict_get r2 X 0)%Q) /\
  (exists r2,
      recommendations_of kneighbors g [B; A] = Ok r2 /\
      (dict_get r2 X 0 == dict_get r1 X 0 + contribution X (tl similar_B))%Q /\
      (dict_get r1 X 0 <= dict_get r2 X 0)%Q).
Proof.
  intros HB Hpos HA.
  assert (Hcontrib : (0 <= contribution X (tl similar_B))%Q).
  { apply contribution_nonneg. intros s Hs. apply Qlt_le_weak, Hpos.
    destruct similar_B as [| p rest]; [destruct Hs | simpl in *; auto]. }
  assert (Hboth : forall r2, (dict_get r2 X 0 == dict_get r1 X 0
                                + contribution X (tl similar_B))%Q ->
            (dict_get r2 X 0 == dict_get r1 X 0 + contribution X (tl similar_B))%Q /\
            (dict_get r1 X 0 <= dict_get r2 X 0)%Q).
  { intros r2 Heq. split; [exact Heq | eapply Qle_added; eassumption]. }
  destruct (recommendations_of_one _ _ _ HA) as [[HAk ->] | [similar_A [HAs ->]]];
    unfold recommendations_of; simpl; rewrite ?HAk, ?HAs, ?HB; split;
    (eexists; split; [reflexivity | apply Hboth]); unfold add_neighbours.
  - apply dict_get_fold_add.
  - apply dict_get_fold_add.
  - apply dict_get_fold_add.
  - rewrite !dict_get_fold_add. simpl. ring.
Qed.

(** Seeds 1 and 2 of the demo catalogue and movie 3, which seed 2 lists
    with similarity 4/5. *)
Lemma aggregation_additive_monotone_demo :
  (exists r2,
      recommendations_of brute_kneighbors demo_engine [1; 2]%Z = Ok r2 /\
      (dict_get r2 3%Z 0 ==
       dict_get demo_recommendations_1 3%Z 0 +
       contribution 3%Z
         (tl [ (2%Z, 1); (3%Z, 4 # 5); (10%Z, 4 # 5); (5%Z, 2 # 3);
               (7%Z, 2 # 3); (4%Z, 3 # 5); (11%Z, 3 # 5); (6%Z, 1 # 3);
               (1%Z, 0); (8%Z, 0); (9%Z, 0) ]))%Q /\
      (dict_get demo_recommendations_1 3%Z 0 <= dict_get r2 3%Z 0)%Q) /\
  (exists r2,
      recommendations_of brute_kneighbors demo_engine [2; 1]%Z = Ok r2 /\
      (dict_get r2 3%Z 0 ==
       dict_get demo_recommendations_1 3%Z 0 +
       contribution 3%Z
         (tl [ (2%Z, 1); (3%Z, 4 # 5); (10%Z, 4 # 5); (5%Z, 2 # 3);
               (7%Z, 2 # 3); (4%Z, 3 # 5); (11%Z, 3 # 5); (6%Z, 1 # 3);
               (1%Z, 0); (8%Z, 0); (9%Z, 0) ]))%Q /\
      (dict_get demo_recommendations_1 3%Z 0 <= dict_get r2 3%Z 0)%Q).
Proof.
  apply (aggregation_additive_monotone brute_kneighbors demo_engine 1%Z 2%Z).
  - vm_compute. reflexivity.
  - intros s Hs. simpl in Hs.
    repeat (destruct Hs as [Hs | Hs]; [try discriminate Hs |]);
      [injection Hs as <-; reflexivity | destruct Hs].
  - vm_compute. reflexivity.
Defined.

(** ** Loading *)

Lemma load_globals
  (model : Type) (fit : list (list Q) -> result model)
  (ratings : list rating_row) (movies : list movie_row) (g : engine model) :
  load fit ratings movies = Ok g ->
  df_movies g = movies /\ df_merged g = merge ratings movies /\
  exists piv, pivot (merge ratings movies) = Ok piv /\ df_piv g = fillna 0 piv.
Proof.
  unfold load. destruct (pivot (merge ratings movies)) as [piv |]; [| discriminate].
  simpl. destruct (fit _) as [m |]; [| discriminate]. simpl.
  intros H. injection H as <-. simpl. eauto.
Qed.

Lemma filter_none (A : Type) (f : A -> bool) (l : list A) :
  (forall x, In x l -> f x = false) -> filter f l = [].
Proof.
  induction l as [| x rest IH]; simpl; intros Hf; [reflexivity |].
  rewrite (Hf x) by auto. apply IH. auto.
Qed.

Lemma merge_nothing (ratings : list rating_row) (movies : list movie_row) :
  (forall r m, In r ratings -> In m movies -> r_movie_id r <> movie_id m) ->
  merge ratings movies = [].
Proof.
  intros Hnone. unfold merge.
  induction ratings as [| r rest IH]; simpl; [reflexivity |].
  rewrite IH by (intros; apply Hnone; simpl; auto).
  rewrite app_nil_r, filter_none; [reflexivity |].
  intros m Hm. apply Z.eqb_neq. intros Heq. apply (Hnone r m); simpl; auto.
Qed.

Lemma stable_sort_values_sorts : sorts_descending stable_sort_values.
Proof.
  intros l. split; [apply sorted_desc_perm | apply sorted_desc_sorted].
Qed.

Lemma unstable_sort_values_sorts : sorts_descending unstable_sort_values.
Proof.
  intros l. unfold unstable_sort_values. split.
  - eapply perm_trans; [apply sorted_desc_perm | apply Permutation_sym, Permutation_rev].
  - apply sorted_desc_sorted.
Qed.

Lemma empty_engine_serves_nothing
  (model : Type) (kneighbors : model -> list Q -> nat -> result (list (Q * nat)))
  (sort_values : list (Z * Q) -> list (Z * Q)) (g : engine model) :
  df_merged g = [] -> index (df_piv g) = [] ->
  (forall movie_ids, get_recommendations kneighbors g movie_ids = Ok []) /\
  (sorts_descending sort_values -> get_top_rated_movies sort_values g = []).
Proof.
  intros Hmerged Hindex. split.
  - intros movie_ids. rewrite get_recommendations_unfold.
    rewrite accumulate_all_unknown; [reflexivity |].
    intros u _. rewrite Hindex. simpl. tauto.
  - intros Hsort. unfold get_top_rated_movies, top_5_ids, df_mean_popular,
      df_mean_rating. rewrite Hmerged. simpl.
    destruct (Hsort []) as [Hperm _]. apply Permutation_sym, Permutation_nil in Hperm.
    rewrite Hperm. reflexivity.
Qed.

(** C4, as the code has it.  When no rating references a movie of the
    movie list, the join is empty and the source checks nothing: loading
    hands the empty matrix to the library's [fit], and the outcome of the
    load is the outcome of that call.  A failure is the exception [fit]
    raised; were [fit] to accept the matrix, the module would load and both
    ranking functions would return the empty list. *)
Theorem load_without_common_movie
  (model : Type) (fit : list (list Q) -> result model)
  (kneighbors : model -> list Q -> nat -> result (list (Q * nat)))
  (sort_values : list (Z * Q) -> list (Z * Q))
  (ratings : list rating_row) (movies : list movie_row) :
  (forall r m, In r ratings -> In m movies -> r_movie_id r <> movie_id m) ->
  load fit ratings movies =
    (m <- fit [] ;; Ok (mk_engine movies [] (mk_pivot [] [] []) [] m)) /\
  (forall e, load fit ratings movies = Raise e -> fit [] = Raise e) /\
  (forall g, load fit ratings movies = Ok g ->
     (forall movie_ids, get_recommendations kneighbors g movie_ids = Ok []) /\
     (sorts_descending sort_values -> get_top_rated_movies sort_values g = [])).
Proof.
  intros Hnone. apply merge_nothing in Hnone.
  assert (Hload : load fit ratings movies =
            (m <- fit [] ;; Ok (mk_engine movies [] (mk_pivot [] [] []) [] m))).
  { unfold load. rewrite Hnone. reflexivity. }
  split; [exact Hload |]. rewrite Hload. split.
  - intros e. destruct (fit []); simpl; [discriminate | congruence].
  - intros g. destruct (fit []) as [m |]; simpl; [| discriminate].
    intros H. injection H as <-. now apply empty_engine_serves_nothing.
Qed.

Lemma load_without_common_movie_demo :
  load brute_fit stray_ratings demo_movies =
    (m <- brute_fit [] ;; Ok (mk_engine demo_movies [] (mk_pivot [] [] []) [] m)) /\
  (forall e, load brute_fit stray_ratings demo_movies = Raise e ->
             brute_fit [] = Raise e) /\
  (forall g, load brute_fit stray_ratings demo_movies = Ok g ->
     (forall movie_ids, get_recommendations brute_kneighbors g movie_ids = Ok []) /\
     (sorts_descending stable_sort_values ->
      get_top_rated_movies stable_sort_values g = [])).
Proof.
  apply (load_without_common_movie brute_fit brute_kneighbors stable_sort_values).
  intros r m Hr Hm.
  destruct Hr as [<- | [<- | []]];
    simpl in Hm; repeat (destruct Hm as [<- | Hm]; [discriminate |]); destruct Hm.
Defined.

(** C4 as it is worded fails: on ratings for the movies 101 and 102,
    which the demo catalogue does not hold, the join is empty and loading
    fails with the [ValueError] of [fit], not with a
    [DataIntegrityError]; with a [fit] that accepts every matrix the
    module loads. *)
Lemma load_stray_ratings_no_integrity_error :
  merge stray_ratings demo_movies = [] /\
  load brute_fit stray_ratings demo_movies = Raise ValueError /\
  load brute_fit stray_ratings demo_movies <> Raise DataIntegrityError /\
  load (fun X => Ok X) stray_ratings demo_movies =
    Ok (mk_engine demo_movies [] (mk_pivot [] [] []) [] []).
Proof.
  repeat split; try (vm_compute; reflexivity).
  vm_compute. discriminate.
Qed.

(** ** Titles come from the catalogue *)

(** C9.  On a loaded module, every title that [get_recommendations] or
    [get_top_rated_movies] returns stands, with the id it was resolved
    from, in the movie list the module was loaded with; an id without a
    row in that list adds no title and raises nothing. *)
Theorem titles_from_catalogue
  (model : Type) (fit : list (list Q) -> result model)
  (kneighbors : model -> list Q -> nat -> result (list (Q * nat)))
  (sort_values : list (Z * Q) -> list (Z * Q))
  (ratings : list rating_row) (movies : list movie_row) (g : engine model) :
  load fit ratings movies = Ok g ->
  (forall movie_ids titles,
      get_recommendations kneighbors g movie_ids = Ok titles ->
      forall t, In t titles ->
        exists id final_recs,
          final_recs_of kneighbors g movie_ids = Ok final_recs /\
          In id final_recs /\ In (mk_movie id t) movies) /\
  (forall t, In t (get_top_rated_movies sort_values g) ->
      exists id, In id (top_5_ids sort_values g) /\ In (mk_movie id t) movies) /\
  (forall ids1 ids2 id,
      (forall t, ~ In (mk_movie id t) movies) ->
      titles_of (df_movies g) (ids1 ++ id :: ids2) =
      titles_of (df_movies g) (ids1 ++ ids2)).
Proof.
  intros Hload. destruct (load_globals _ _ _ Hload) as [Hmovies _].
  rewrite Hmovies. repeat split.
  - intros movie_ids titles Hrec t Ht.
    unfold get_recommendations in Hrec. rewrite Hmovies in Hrec.
    destruct (final_recs_of kneighbors g movie_ids) as [final_recs |]; [| discriminate].
    simpl in Hrec. injection Hrec as <-.
    destruct (titles_of_In _ _ _ Ht) as [id [Hid Hrow]]. eauto.
  - intros t Ht. unfold get_top_rated_movies in Ht. rewrite Hmovies in Ht.
    now apply titles_of_In.
  - intros ids1 ids2 id Hnone. now apply titles_of_drop.
Qed.

Lemma titles_from_catalogue_demo :
  (forall movie_ids titles,
      get_recommendations brute_kneighbors demo_engine movie_ids = Ok titles ->
      forall t, In t titles ->
        exists id final_recs,
          final_recs_of brute_kneighbors demo_engine movie_ids = Ok final_recs /\
          In id final_recs /\ In (mk_movie id t) demo_movies) /\
  (forall t, In t (get_top_rated_movies stable_sort_values demo_engine) ->
      exists id, In id (top_5_ids stable_sort_values demo_engine) /\
                 In (mk_movie id t) demo_movies) /\
  (forall ids1 ids2 id,
      (forall t, ~ In (mk_movie id t) demo_movies) ->
      titles_of (df_movies demo_engine) (ids1 ++ id :: ids2) =
      titles_of (df_movies demo_engine) (ids1 ++ ids2)).
Proof.
  apply (titles_from_catalogue brute_fit brute_kneighbors stable_sort_values
           demo_ratings demo_movies).
  vm_compute. reflexivity.
Defined.

(** ** At most five entries *)

(** C2.  A list returned by [get_recommendations] has at most five
    entries, and so has the list [get_top_rated_movies] returns.  When the
    index answers its queries, [get_recommendations] does return a list,
    for every seed list. *)
Theorem at_most_five
  (model : Type) (kneighbors : model -> list Q -> nat -> result (list (Q * nat)))
  (sort_values : list (Z * Q) -> list (Z * Q)) (g : engine model) :
  (forall movie_ids titles,
      get_recommendations kneighbors g movie_ids = Ok titles ->
      (List.length titles <= 5)%nat) /\
  (index_answers kneighbors g ->
   forall movie_ids, exists titles,
      get_recommendations kneighbors g movie_ids = Ok titles /\
      (List.length titles <= 5)%nat) /\
  (List.length (get_top_rated_movies sort_values g) <= 5)%nat.
Proof.
  assert (Hbound : forall movie_ids titles,
             get_recommendations kneighbors g movie_ids = Ok titles ->
             (List.length titles <= 5)%nat).
  { intros movie_ids titles H. rewrite get_recommendations_unfold in H.
    destruct (accumulate kneighbors g movie_ids []) as [recs |]; [| discriminate].
    simpl in H. injection H as <-.
    eapply Nat.le_trans; [apply titles_of_length |].
    apply select_final_length. simpl. lia. }
  split; [exact Hbound |]. split.
  - intros Hans movie_ids.
    destruct (accumulate_total movie_ids Hans []) as [recs Hrecs].
    eexists. split; [| eapply Hbound];
      rewrite get_recommendations_unfold, Hrecs; reflexivity.
  - unfold get_top_rated_movies.
    eapply Nat.le_trans; [apply titles_of_length | apply top_5_ids_length].
Qed.

(** The exact cosine index answers every query on the demo data. *)
Example demo_index_answers : index_answers brute_kneighbors demo_engine.
Proof.
  split; [reflexivity |].
  intros row Hrow. simpl in Hrow.
  repeat (destruct Hrow as [<- | Hrow];
          [ eexists; split; [vm_compute; reflexivity |];
            intros d i Hin; simpl in Hin;
            repeat (destruct Hin as [Hin | Hin];
                    [injection Hin as <- <-; simpl; lia |]);
            destruct Hin | ]).
  destruct Hrow.
Qed.

Example demo_rankings :
  get_recommendations brute_kneighbors demo_engine [1; 2; 3]%Z
    = Ok ["Dune"; "Fargo"; "Heat"; "Gattaca"; "Kundun"]%string /\
  get_top_rated_movies stable_sort_values demo_engine
    = ["Casino"; "Dune"; "Ikiru"; "Jaws"; "Kundun"]%string.
Proof. split; vm_compute; reflexivity. Qed.

Lemma at_most_five_demo :
  (List.length ["Dune"; "Fargo"; "Heat"; "Gattaca"; "Kundun"]%string <= 5)%nat /\
  (exists titles,
      get_recommendations brute_kneighbors demo_engine [1; 2; 3]%Z = Ok titles /\
      (List.length titles <= 5)%nat) /\
  (List.length (get_top_rated_movies stable_sort_values demo_engine) <= 5)%nat.
Proof.
  destruct (at_most_five brute_kneighbors stable_sort_values demo_engine)
    as [Hbound [Htotal Htop]].
  split; [apply (Hbound [1; 2; 3]%Z); vm_compute; reflexivity |].
  split; [apply Htotal, demo_index_answers | exact Htop].
Defined.

(** ** The popularity ranking *)

(** C5.  Every id behind the titles [get_top_rated_movies] returns has a
    rating count at or above the median of the rating counts of the
    movies of the merged data, one count per movie. *)
Theorem top_rated_meet_threshold
  (model : Type) (sort_values : list (Z * Q) -> list (Z * Q)) (g : engine model) :
  sorts_descending sort_values ->
  forall id, In id (top_5_ids sort_values g) ->
    exists t,
      median (map (rating_count (df_merged g))
                  (sorted_unique (map m_movie_id (df_merged g)))) = Some t /\
      (t <= inject_Z (rating_count (df_merged g) id))%Q.
Proof.
  intros Hsort id Hid.
  destruct (@top_5_ids_In model sort_values g id Hsort Hid) as [m Hm].
  apply df_mean_popular_In in Hm. destruct Hm as [_ [t [Ht Hle]]].
  exists t. split; [| exact Hle]. now rewrite <- min_ratings_threshold_median.
Qed.

(** Movie 3 of the demo catalogue: two ratings, the median count is 2. *)
Lemma top_rated_meet_threshold_demo :
  exists t,
    median (map (rating_count (df_merged demo_engine))
                (sorted_unique (map m_movie_id (df_merged demo_engine)))) = Some t /\
    (t <= inject_Z (rating_count (df_merged demo_engine) 3))%Q.
Proof.
  apply (top_rated_meet_threshold demo_engine stable_sort_values_sorts 3%Z).
  vm_compute. left. reflexivity.
Defined.

Lemma distinct_ratings_filter (f : Z * Q -> bool) (l : list (Z * Q)) :
  distinct_ratings l -> distinct_ratings (filter f l).
Proof.
  intros Hd a b Ha Hb. apply filter_In in Ha, Hb. apply Hd; tauto.
Qed.

(** C6, as the code has it.  [get_top_rated_movies] resolves the first
    five ids of the retained rows (those whose rating count reaches the
    median) put in order of mean rating, highest first; the order of rows
    with equal means is the sorting routine's.  When the mean ratings are
    pairwise distinct, the first id is that of the retained movie with the
    highest mean, and its title comes first. *)
Theorem top_rated_order
  (model : Type) (sort_values : list (Z * Q) -> list (Z * Q)) (g : engine model) :
  sorts_descending sort_values ->
  (exists s,
      Permutation s (df_mean_popular g) /\
      StronglySorted score_ge s /\
      top_5_ids sort_values g = map fst (firstn 5 s)) /\
  (forall id m,
      In (id, m) (df_mean_popular g) <->
      In (id, m) (df_mean_rating g) /\
      exists t, min_ratings_threshold g = Some t /\
                (t <= inject_Z (rating_count (df_merged g) id))%Q) /\
  (distinct_ratings (df_mean_rating g) ->
   forall id m,
     In (id, m) (df_mean_popular g) ->
     (forall a, In a (df_mean_popular g) -> (snd a <= m)%Q) ->
     hd_error (top_5_ids sort_values g) = Some id /\
     forall t ts, title_series (df_movies g) id = t :: ts ->
                  hd_error (get_top_rated_movies sort_values g) = Some t).
Proof.
  intros Hsort. destruct (Hsort (df_mean_popular g)) as [Hperm Hsorted].
  split; [exists (sort_values (df_mean_popular g)); auto |].
  split; [intros id m; apply df_mean_popular_In |].
  intros Hdistinct id m Hin Hmax.
  assert (Hhead : hd_error (sort_values (df_mean_popular g)) = Some (id, m)).
  { eapply sorted_head_is_best; try eassumption.
    now apply distinct_ratings_filter. }
  unfold get_top_rated_movies, top_5_ids.
  destruct (sort_values (df_mean_popular g)) as [| top rest]; [discriminate |].
  simpl in Hhead. injection Hhead as ->. simpl.
  split; [reflexivity |]. intros t ts Ht. now rewrite Ht.
Qed.

Lemma top_rated_order_demo :
  (exists s,
      Permutation s (df_mean_popular small_engine) /\
      StronglySorted score_ge s /\
      top_5_ids stable_sort_values small_engine = map fst (firstn 5 s)) /\
  (forall id m,
      In (id, m) (df_mean_popular small_engine) <->
      In (id, m) (df_mean_rating small_engine) /\
      exists t, min_ratings_threshold small_engine = Some t /\
                (t <= inject_Z (rating_count (df_merged small_engine) id))%Q) /\
  (distinct_ratings (df_mean_rating small_engine) ->
   forall id m,
     In (id, m) (df_mean_popular small_engine) ->
     (forall a, In a (df_mean_popular small_engine) -> (snd a <= m)%Q) ->
     hd_error (top_5_ids stable_sort_values small_engine) = Some id /\
     forall t ts, title_series (df_movies small_engine) id = t :: ts ->
                  hd_error (get_top_rated_movies stable_sort_values small_engine)
                  = Some t).
Proof.
  apply (top_rated_order small_engine stable_sort_values_sorts).
Defined.

Lemma small_means_distinct : distinct_ratings (df_mean_rating small_engine).
Proof.
  assert (Hm : df_mean_rating small_engine
               = [(1%Z, 5); (2%Z, 10 # 3); (3%Z, 7 # 3)]%Q)
    by (vm_compute; reflexivity).
  rewrite Hm. intros a b Ha Hb Heq. simpl in Ha, Hb.
  destruct Ha as [<- | [<- | [<- | []]]], Hb as [<- | [<- | [<- | []]]];
    try reflexivity; vm_compute in Heq; discriminate.
Qed.

(** C6 as it is worded fails.  The three movies of the small catalogue
    have the pairwise distinct means 5, 10/3 and 7/3; movie 1, with the
    highest mean, has one rating, below the median count 3, and is not
    retained.  Whatever the sorting routine, the ranking starts with movie
    2, and movie 1 is not in it. *)
Lemma best_mean_not_first :
  load brute_fit small_ratings small_movies = Ok small_engine /\
  distinct_ratings (df_mean_rating small_engine) /\
  In (1%Z, 5%Q) (df_mean_rating small_engine) /\
  (forall a, In a (df_mean_rating small_engine) -> (snd a <= 5)%Q) /\
  (forall sort_values, sorts_descending sort_values ->
     top_5_ids sort_values small_engine = [2; 3]%Z /\
     get_top_rated_movies sort_values small_engine = ["Brazil"; "Casino"]%string /\
     hd_error (top_5_ids sort_values small_engine) <> Some 1%Z).
Proof.
  assert (Hm : df_mean_rating small_engine
               = [(1%Z, 5); (2%Z, 10 # 3); (3%Z, 7 # 3)]%Q)
    by (vm_compute; reflexivity).
  split; [vm_compute; reflexivity |].
  split; [apply small_means_distinct |].
  split; [rewrite Hm; now left |].
  split.
  - rewrite Hm. intros a Ha. simpl in Ha.
    destruct Ha as [<- | [<- | [<- | []]]]; vm_compute; discriminate.
  - intros sort_values Hsort.
    assert (Hp : df_mean_popular small_engine = [(2%Z, 10 # 3); (3%Z, 7 # 3)]%Q)
      by (vm_compute; reflexivity).
    assert (Hs : sort_values (df_mean_popular small_engine)
                 = [(2%Z, 10 # 3); (3%Z, 7 # 3)]%Q).
    { destruct (Hsort (df_mean_popular small_engine)) as [Hperm Hsorted].
      rewrite Hp in *. apply Permutation_sym in Hperm.
      apply Permutation_length_2_inv in Hperm.
      destruct Hperm as [-> | Heq]; [reflexivity |].
      rewrite Heq in Hsorted. exfalso.
      inversion Hsorted as [| ? ? _ Hall]; subst.
      inversion Hall as [| ? ? Hc _]; subst.
      vm_compute in Hc. now apply Hc. }
    unfold get_top_rated_movies, top_5_ids. rewrite Hs.
    repeat split; try (vm_compute; reflexivity).
    vm_compute. discriminate.
Qed.

(** Rows with equal means: two routines that both sort by mean rating,
    highest first, rank the demo catalogue differently. *)
Example tie_order_is_the_routine's :
  sorts_descending stable_sort_values /\
  sorts_descending unstable_sort_values /\
  get_top_rated_movies stable_sort_values demo_engine
    = ["Casino"; "Dune"; "Ikiru"; "Jaws"; "Kundun"]%string /\
  get_top_rated_movies unstable_sort_values demo_engine
    = ["Laura"; "Kundun"; "Jaws"; "Ikiru"; "Dune"]%string.
Proof.
  split; [apply stable_sort_values_sorts |].
  split; [apply unstable_sort_values_sorts |].
  split; vm_compute; reflexivity.
Qed.

(** * Further properties of the code *)

(** ** The selection loop in closed form *)

Lemma select_final_firstn (movie_ids : list Z) (sorted_recs : list (Z * Q)) :
  forall final_recs,
    (List.length final_recs < 5)%nat ->
    select_final movie_ids sorted_recs final_recs =
    final_recs ++
    firstn (5 - List.length final_recs)
           (filter (fun id => negb (in_list id movie_ids)) (map fst sorted_recs)).
Proof.
  induction sorted_recs as [| [rec_id s] rest IH]; intros acc Hacc;
    cbn [select_final map fst filter].
  - now rewrite firstn_nil, app_nil_r.
  - destruct (negb (in_list rec_id movie_ids)).
    + destruct (5 <=? List.length (acc ++ [rec_id]))%nat eqn:Hfull.
      * apply Nat.leb_le in Hfull. rewrite length_app in Hfull. simpl in Hfull.
        replace (5 - List.length acc)%nat with 1%nat by lia. reflexivity.
      * apply Nat.leb_gt in Hfull. rewrite IH by assumption.
        rewrite length_app. cbn [List.length]. remember (List.length acc) as n.
        assert (Hn : (5 - n = S (5 - (n + 1)))%nat)
          by (rewrite length_app in Hfull; cbn [List.length] in Hfull; lia).
        rewrite Hn. cbn [firstn]. now rewrite <- app_assoc.
    + destruct (5 <=? List.length acc)%nat eqn:Hfull.
      * apply Nat.leb_le in Hfull. lia.
      * now apply IH.
Qed.

Lemma NoDup_firstn (A : Type) (n : nat) (l : list A) : NoDup l -> NoDup (firstn n l).
Proof.
  revert l. induction n as [| n IH]; intros [| x rest] Hl; simpl; try constructor.
  - inversion Hl; subst. intros Hin. apply firstn_subset in Hin. contradiction.
  - inversion Hl; subst. now apply IH.
Qed.

Lemma dict_set_NoDup (d : dict) (k : Z) (v : Q) :
  NoDup (map fst d) -> NoDup (map fst (dict_set d k v)).
Proof.
  intros Hd. rewrite dict_set_order.
  destruct (in_list k (map fst d)) eqn:Hk; [assumption |].
  apply in_list_false in Hk.
  eapply Permutation_NoDup; [apply Permutation_cons_append |].
  now constructor.
Qed.

Lemma fold_add_NoDup (l : list (Z * Q)) :
  forall d, NoDup (map fst d) -> NoDup (map fst (fold_left add_score l d)).
Proof.
  induction l as [| [k s] rest IH]; intros d Hd; simpl.
  - assumption.
  - apply IH. now apply dict_set_NoDup.
Qed.

Section MoreRecommendations.

Variable model : Type.
Variable kneighbors : model -> list Q -> nat -> result (list (Q * nat)).
Variable g : engine model.

(** The dictionary holds each movie once. *)
Lemma accumulate_NoDup (ids : list Z) :
  forall d r,
    accumulate kneighbors g ids d = Ok r ->
    NoDup (map fst d) -> NoDup (map fst r).
Proof.
  induction ids as [| id rest IH]; simpl; intros d r Hr Hd.
  - now injection Hr as <-.
  - destruct (similar_movies kneighbors g id) as [similar | e].
    + eapply IH; [eassumption |]. now apply fold_add_NoDup.
    + destruct e; try discriminate. eauto.
Qed.

(** An exception that leaves the loop was raised for one of the seeds. *)
Lemma accumulate_raises (ids : list Z) :
  forall d e,
    accumulate kneighbors g ids d = Raise e ->
    e <> KeyError /\ exists seed, In seed ids /\ similar_movies kneighbors g seed = Raise e.
Proof.
  induction ids as [| id rest IH]; simpl; intros d e He.
  - discriminate.
  - destruct (similar_movies kneighbors g id) as [similar | e0] eqn:Hsim.
    + destruct (IH _ _ He) as [Hne [seed [Hin Hseed]]]. eauto.
    + destruct e0;
        try (injection He as <-; split; [discriminate | eauto]).
      destruct (IH _ _ He) as [Hne [seed [Hin Hseed]]]. eauto.
Qed.



End MoreRecommendations.




(** ** More on [get_recommendations] *)

(** X1.  The ids [get_recommendations] settles on are the first five
    entries of [sorted_recs] that are not seeds, in the order of
    [sorted_recs]; there are fewer than five only when [sorted_recs] holds
    fewer than five entries that are not seeds. *)
Theorem final_recs_best_five
  (model : Type) (kneighbors : model -> list Q -> nat -> result (list (Q * nat)))
  (g : engine model) (movie_ids : list Z) (final_recs : list Z) :
  final_recs_of kneighbors g movie_ids = Ok final_recs ->
  exists sorted_recs,
    sorted_recs_of kneighbors g movie_ids = Ok sorted_recs /\
    final_recs =
      firstn 5 (filter (fun id => negb (in_list id movie_ids)) (map fst sorted_recs)) /\
    List.length final_recs =
      Nat.min 5 (List.length
                   (filter (fun id => negb (in_list id movie_ids)) (map fst sorted_recs))).
Proof.
  unfold final_recs_of. intros H.
  destruct (sorted_recs_of kneighbors g movie_ids) as [sorted_recs |]; [| discriminate].
  simpl in H. injection H as <-. exists sorted_recs. split; [reflexivity |].
  rewrite select_final_firstn by (simpl; lia).
  change (5 - List.length (@nil Z))%nat with 5%nat. cbn [app].
  split; [reflexivity | apply length_firstn].
Qed.

Lemma final_recs_best_five_demo :
  exists sorted_recs,
    sorted_recs_of brute_kneighbors demo_engine [1; 2]%Z = Ok sorted_recs /\
    [4; 3; 5; 6; 7]%Z =
      firstn 5 (filter (fun id => negb (in_list id [1; 2]%Z)) (map fst sorted_recs)) /\
    List.length [4; 3; 5; 6; 7]%Z =
      Nat.min 5 (List.length
                   (filter (fun id => negb (in_list id [1; 2]%Z)) (map fst sorted_recs))).
Proof.
  apply (final_recs_best_five brute_kneighbors demo_engine [1; 2]%Z).
  vm_compute. reflexivity.
Defined.

(** X2.  No movie is recommended twice: the ids behind the titles of
    [get_recommendations] are pairwise distinct. *)
Theorem final_recs_distinct
  (model : Type) (kneighbors : model -> list Q -> nat -> result (list (Q * nat)))
  (g : engine model) (movie_ids : list Z) (final_recs : list Z) :
  final_recs_of kneighbors g movie_ids = Ok final_recs ->
  NoDup final_recs.
Proof.
  unfold final_recs_of, sorted_recs_of, recommendations_of. intros H.
  destruct (accumulate kneighbors g movie_ids []) as [recs |] eqn:Hacc; [| discriminate].
  simpl in H. injection H as <-.
  rewrite select_final_firstn by (simpl; lia).
  change (5 - List.length (@nil Z))%nat with 5%nat. cbn [app].
  apply NoDup_firstn, NoDup_filter.
  eapply Permutation_NoDup.
  - apply Permutation_sym, Permutation_map, sorted_desc_perm.
  - eapply accumulate_NoDup; [eassumption | constructor].
Qed.

Lemma final_recs_distinct_demo : NoDup [4; 3; 5; 6; 7]%Z.
Proof.
  apply (final_recs_distinct brute_kneighbors demo_engine [1; 2]%Z).
  vm_compute. reflexivity.
Defined.

(** X3.  [get_recommendations] never raises [KeyError]: an exception
    that leaves it was raised by the query for one of its seeds (by
    [kneighbors], or by the lookup of a row position it returned). *)
Theorem get_recommendations_raises
  (model : Type) (kneighbors : model -> list Q -> nat -> result (list (Q * nat)))
  (g : engine model) (movie_ids : list Z) (e : exn) :
  get_recommendations kneighbors g movie_ids = Raise e ->
  e <> KeyError /\
  exists seed, In seed movie_ids /\ similar_movies kneighbors g seed = Raise e.
Proof.
  rewrite get_recommendations_unfold. intros H.
  destruct (accumulate kneighbors g movie_ids []) as [recs |] eqn:Hacc; [discriminate |].
  simpl in H. injection H as <-. eapply accumulate_raises. eassumption.
Qed.

(** The small catalogue has three rows; a query for 11 neighbours is
    refused. *)
Lemma get_recommendations_raises_demo :
  ValueError <> KeyError /\
  exists seed, In seed [7; 1]%Z /\
               similar_movies brute_kneighbors small_engine seed = Raise ValueError.
Proof.
  apply (get_recommendations_raises brute_kneighbors small_engine [7; 1]%Z).
  vm_compute. reflexivity.
Defined.





(** ** Merge and pivot *)

Lemma merge_In (ratings : list rating_row) (movies : list movie_row) (row : merged_row) :
  In row (merge ratings movies) <->
  exists r m,
    In r ratings /\ In m movies /\ movie_id m = r_movie_id r /\
    row = mk_merged (userId r) (r_movie_id r) (rating r) (movie_title m).
Proof.
  unfold merge. rewrite in_flat_map. split.
  - intros [r [Hr Hrow]]. apply in_map_iff in Hrow. destruct Hrow as [m [Heq Hm]].
    apply filter_In in Hm. destruct Hm as [Hm Hid]. apply Z.eqb_eq in Hid.
    exists r, m. auto.
  - intros [r [m [Hr [Hm [Hid ->]]]]]. exists r. split; [assumption |].
    apply in_map_iff. exists m. split; [reflexivity |].
    apply filter_In. split; [assumption | now apply Z.eqb_eq].
Qed.

Lemma merge_app (ratings1 ratings2 : list rating_row) (movies : list movie_row) :
  merge (ratings1 ++ ratings2) movies = merge ratings1 movies ++ merge ratings2 movies.
Proof. unfold merge. apply flat_map_app. Qed.

(** The ids of the merged rows: the catalogue movies that have a rating. *)
Lemma merge_movie_ids (ratings : list rating_row) (movies : list movie_row) (id : Z) :
  In id (map m_movie_id (merge ratings movies)) <->
  exists r m, In r ratings /\ In m movies /\ movie_id m = id /\ r_movie_id r = id.
Proof.
  rewrite in_map_iff. split.
  - intros [row [Hid Hrow]]. apply merge_In in Hrow.
    destruct Hrow as [r [m [Hr [Hm [Heq ->]]]]]. simpl in Hid. subst id.
    exists r, m. auto.
  - intros [r [m [Hr [Hm [Hid1 Hid2]]]]].
    exists (mk_merged (userId r) (r_movie_id r) (rating r) (movie_title m)).
    split; [assumption |]. apply merge_In. exists r, m. repeat split; auto. congruence.
Qed.

Lemma existsb_entry_key (r : merged_row) (rest : list merged_row) :
  existsb (fun r' => (m_movie_id r' =? m_movie_id r)%Z && (m_userId r' =? m_userId r)%Z)
          rest = true <->
  In (entry_key r) (map entry_key rest).
Proof.
  rewrite existsb_exists, in_map_iff. unfold entry_key. split.
  - intros [r' [Hin Heq]]. apply andb_true_iff in Heq. destruct Heq as [H1 H2].
    apply Z.eqb_eq in H1, H2. exists r'. split; [congruence | assumption].
  - intros [r' [Heq Hin]]. injection Heq as H1 H2. exists r'. split; [assumption |].
    rewrite H1, H2, !Z.eqb_refl. reflexivity.
Qed.

(** [pivot] refuses the data exactly when some (movie, user) pair occurs
    in two rows. *)
Lemma duplicate_entries_NoDup (df : list merged_row) :
  duplicate_entries df = false <-> NoDup (map entry_key df).
Proof.
  induction df as [| r rest IH]; simpl.
  - split; [constructor | reflexivity].
  - rewrite orb_false_iff, IH. split.
    + intros [Hnot Hrest]. constructor; [| assumption].
      rewrite <- existsb_entry_key. congruence.
    + intros H. inversion H as [| ? ? Hnot Hrest]; subst. split; [| assumption].
      rewrite <- existsb_entry_key in Hnot. now destruct (existsb _ rest).
Qed.

Lemma NoDup_app_In (A : Type) (l1 l2 : list A) (x : A) :
  NoDup (l1 ++ l2) -> In x l1 -> ~ In x l2.
Proof.
  induction l1 as [| y rest IH]; simpl; intros Hnd Hin; [destruct Hin |].
  inversion Hnd as [| ? ? Hnot Hrest]; subst.
  destruct Hin as [-> | Hin]; [| now apply IH].
  intros H2. apply Hnot. apply in_or_app. now right.
Qed.

Lemma load_pivot
  (model : Type) (fit : list (list Q) -> result model)
  (ratings : list rating_row) (movies : list movie_row) (g : engine model) :
  load fit ratings movies = Ok g ->
  let merged := merge ratings movies in
  NoDup (map entry_key merged) /\
  df_movies g = movies /\
  df_merged g = merged /\
  index (df_piv g) = sorted_unique (map m_movie_id merged) /\
  columns (df_piv g) = sorted_unique (map m_userId merged) /\
  df_sp g =
    map (fun mid =>
           map (fun uid => match pivot_cell merged mid uid with
                           | Some x => x
                           | None => 0%Q
                           end)
               (sorted_unique (map m_userId merged)))
        (sorted_unique (map m_movie_id merged)) /\
  fit (df_sp g) = Ok (rec_model g).
Proof.
  unfold load, pivot. intros H.
  destruct (duplicate_entries (merge ratings movies)) eqn:Hdup; [discriminate |].
  simpl in H. unfold csr_matrix in H.
  destruct (fit _) as [m |] eqn:Hfit; [| discriminate].
  simpl in H. injection H as <-. simpl.
  apply duplicate_entries_NoDup in Hdup.
  repeat split; try assumption.
  rewrite map_map. apply map_ext. intros mid. now rewrite map_map.
Qed.

Lemma load_duplicates
  (model : Type) (fit : list (list Q) -> result model)
  (ratings : list rating_row) (movies : list movie_row) :
  ~ NoDup (map entry_key (merge ratings movies)) ->
  load fit ratings movies = Raise ValueError.
Proof.
  intros Hdup. unfold load, pivot.
  destruct (duplicate_entries (merge ratings movies)) eqn:H; [reflexivity |].
  apply duplicate_entries_NoDup in H. contradiction.
Qed.

Lemma merge_one_keys (r : rating_row) (movies : list movie_row) :
  map entry_key (merge [r] movies) =
  repeat (r_movie_id r, userId r)
         (List.length (filter (fun m => (movie_id m =? r_movie_id r)%Z) movies)).
Proof.
  unfold merge. simpl. rewrite app_nil_r, map_map.
  induction (filter (fun m => (movie_id m =? r_movie_id r)%Z) movies) as [| m rest IH];
    simpl; [reflexivity | now rewrite IH].
Qed.

Lemma NoDup_map_eq (A B : Type) (f : A -> B) (l : list A) (a b : A) :
  NoDup (map f l) -> In a l -> In b l -> f a = f b -> a = b.
Proof.
  induction l as [| x rest IH]; simpl; intros Hnd Ha Hb Heq; [destruct Ha |].
  inversion Hnd as [| ? ? Hnot Hrest]; subst.
  destruct Ha as [-> | Ha], Hb as [-> | Hb]; auto.
  - exfalso. apply Hnot. rewrite Heq. now apply in_map.
  - exfalso. apply Hnot. rewrite <- Heq. now apply in_map.
Qed.

Lemma get_loc_nth (idx : list Z) (key : Z) :
  forall i, get_loc idx key = Ok i -> nth_error idx i = Some key.
Proof.
  induction idx as [| x rest IH]; simpl; intros i Hi; [discriminate |].
  destruct (x =? key)%Z eqn:Hx.
  - injection Hi as <-. apply Z.eqb_eq in Hx. now subst.
  - destruct (get_loc rest key) as [n |]; [| discriminate].
    simpl in Hi. injection Hi as <-. simpl. now apply IH.
Qed.

(** X6.  A second rating of a movie by the same user stops the load:
    when two rows of [df_ratings] have the same user and the same movie,
    and the movie is in the movie list, loading raises [ValueError] (from
    [pivot]) before [fit] is called. *)
Theorem load_refuses_repeated_rating
  (model : Type) (fit : list (list Q) -> result model)
  (ratings1 ratings2 ratings3 : list rating_row) (r1 r2 : rating_row)
  (movies : list movie_row) (m : movie_row) :
  userId r1 = userId r2 ->
  r_movie_id r1 = r_movie_id r2 ->
  In m movies ->
  movie_id m = r_movie_id r1 ->
  load fit (ratings1 ++ r1 :: ratings2 ++ r2 :: ratings3) movies = Raise ValueError.
Proof.
  intros Hu Hid Hm Hmid. apply load_duplicates. intros Hnd.
  change (r1 :: ratings2 ++ r2 :: ratings3) with ([r1] ++ ratings2 ++ r2 :: ratings3) in Hnd.
  rewrite !merge_app, !map_app in Hnd.
  apply NoDup_app_remove_l in Hnd.
  apply (NoDup_app_In _ _ (r_movie_id r1, userId r1)) in Hnd.
  - apply Hnd. rewrite <- map_app, <- merge_app.
    change (r_movie_id r1, userId r1)
      with (entry_key (mk_merged (userId r1) (r_movie_id r1) (rating r2) (movie_title m))).
    apply in_map. apply merge_In. exists r2, m.
    repeat split; try congruence.
    apply in_or_app. right. now left.
  - change (r_movie_id r1, userId r1)
      with (entry_key (mk_merged (userId r1) (r_movie_id r1) (rating r1) (movie_title m))).
    apply in_map. apply merge_In. exists r1, m. repeat split; auto. now left.
Qed.

Lemma load_refuses_repeated_rating_demo :
  load brute_fit ([rate 1 1 5] ++ rate 1 2 3 :: [rate 2 2 4] ++ rate 1 2 1 :: [])
       small_movies = Raise ValueError.
Proof.
  apply (load_refuses_repeated_rating brute_fit [rate 1 1 5] [rate 2 2 4] []
           (rate 1 2 3) (rate 1 2 1) small_movies (mk_movie 2 "Brazil")).
  - reflexivity.
  - reflexivity.
  - simpl. auto.
  - reflexivity.
Defined.

(** X7.  A movie id that stands in two rows of the movie list stops the
    load as soon as one rating references it: the join repeats the rating
    once per row, and [pivot] raises [ValueError]. *)
Theorem load_refuses_repeated_movie
  (model : Type) (fit : list (list Q) -> result model)
  (ratings : list rating_row) (movies : list movie_row) (r : rating_row) :
  In r ratings ->
  (2 <= List.length (filter (fun m => (movie_id m =? r_movie_id r)%Z) movies))%nat ->
  load fit ratings movies = Raise ValueError.
Proof.
  intros Hr Htwice. apply load_duplicates. intros Hnd.
  destruct (in_split _ _ Hr) as [l1 [l2 ->]].
  change (r :: l2) with ([r] ++ l2) in Hnd.
  rewrite !merge_app, !map_app in Hnd.
  apply NoDup_app_remove_l, NoDup_app_remove_r in Hnd.
  rewrite merge_one_keys in Hnd.
  destruct (List.length (filter (fun m => (movie_id m =? r_movie_id r)%Z) movies))
    as [| [| n]]; try lia.
  simpl in Hnd. inversion Hnd as [| ? ? Hnot _]; subst. apply Hnot. now left.
Qed.

Lemma load_refuses_repeated_movie_demo :
  load brute_fit small_ratings (small_movies ++ [mk_movie 2 "Brazil (1985)"])
  = Raise ValueError.
Proof.
  apply (load_refuses_repeated_movie brute_fit small_ratings
           (small_movies ++ [mk_movie 2 "Brazil (1985)"]) (rate 1 2 3)).
  - simpl. auto.
  - vm_compute. lia.
Defined.

(** X8.  On a loaded module the pivot table lists, in increasing order
    and once each, exactly the movies of the movie list that have a
    rating; its columns are the users, in increasing order; the matrix has
    one row per listed movie and one entry per user in every row. *)
Theorem loaded_matrix_shape
  (model : Type) (fit : list (list Q) -> result model)
  (ratings : list rating_row) (movies : list movie_row) (g : engine model) :
  load fit ratings movies = Ok g ->
  StronglySorted Z.lt (index (df_piv g)) /\
  StronglySorted Z.lt (columns (df_piv g)) /\
  (forall id, In id (index (df_piv g)) <->
     exists r m, In r ratings /\ In m movies /\ movie_id m = id /\ r_movie_id r = id) /\
  List.length (df_sp g) = List.length (index (df_piv g)) /\
  Forall (fun row => List.length row = List.length (columns (df_piv g))) (df_sp g).
Proof.
  intros Hload. destruct (load_pivot _ _ _ Hload) as [_ [_ [_ [Hidx [Hcol [Hsp _]]]]]].
  rewrite Hidx, Hcol, Hsp.
  split; [apply sorted_unique_sorted |]. split; [apply sorted_unique_sorted |].
  split; [intros id; rewrite sorted_unique_In; apply merge_movie_ids |].
  split; [apply length_map |].
  apply Forall_forall. intros row Hrow. apply in_map_iff in Hrow.
  destruct Hrow as [mid [<- _]]. apply length_map.
Qed.

Lemma loaded_matrix_shape_demo :
  StronglySorted Z.lt (index (df_piv demo_engine)) /\
  StronglySorted Z.lt (columns (df_piv demo_engine)) /\
  (forall id, In id (index (df_piv demo_engine)) <->
     exists r m, In r demo_ratings /\ In m demo_movies /\
                 movie_id m = id /\ r_movie_id r = id) /\
  List.length (df_sp demo_engine) = List.length (index (df_piv demo_engine)) /\
  Forall (fun row => List.length row = List.length (columns (df_piv demo_engine)))
         (df_sp demo_engine).
Proof.
  apply (loaded_matrix_shape brute_fit demo_ratings demo_movies).
  vm_compute. reflexivity.
Defined.

(** X9.  On a loaded module the matrix entry in the row of a listed
    movie and the column of a listed user is that user's rating of the
    movie when there is one, and 0 when there is none. *)
Theorem loaded_matrix_cells
  (model : Type) (fit : list (list Q) -> result model)
  (ratings : list rating_row) (movies : list movie_row) (g : engine model)
  (id u : Z) :
  load fit ratings movies = Ok g ->
  In id (index (df_piv g)) ->
  In u (columns (df_piv g)) ->
  exists i j row v,
    get_loc (index (df_piv g)) id = Ok i /\
    get_loc (columns (df_piv g)) u = Ok j /\
    nth_error (df_sp g) i = Some row /\
    nth_error row j = Some v /\
    (forall r, In r ratings -> r_movie_id r = id -> userId r = u -> v = rating r) /\
    ((forall r, In r ratings -> r_movie_id r = id -> userId r <> u) -> v = 0%Q).
Proof.
  intros Hload Hid Hu.
  destruct (load_pivot _ _ _ Hload) as [Hnd [_ [_ [Hidx [Hcol [Hsp _]]]]]].
  destruct (get_loc_known _ _ Hid) as [i [Hi _]].
  destruct (get_loc_known _ _ Hu) as [j [Hj _]].
  pose proof (get_loc_nth _ _ Hi) as Hni. pose proof (get_loc_nth _ _ Hj) as Hnj.
  rewrite Hidx in Hni. rewrite Hcol in Hnj.
  exists i, j. eexists. eexists.
  split; [exact Hi |]. split; [exact Hj |].
  split; [rewrite Hsp; apply map_nth_error; exact Hni |].
  split; [apply map_nth_error; exact Hnj |].
  assert (Hin_id : exists m, In m movies /\ movie_id m = id).
  { rewrite Hidx, sorted_unique_In in Hid. apply merge_movie_ids in Hid.
    destruct Hid as [r [m [_ [Hm [Hmid _]]]]]. eauto. }
  destruct Hin_id as [m [Hm Hmid]].
  unfold pivot_cell.
  destruct (find (fun r => (m_movie_id r =? id)%Z && (m_userId r =? u)%Z)
                 (merge ratings movies)) as [row' |] eqn:Hfind; simpl.
  - apply find_some in Hfind. destruct Hfind as [Hrow' Hkey].
    apply andb_true_iff in Hkey. destruct Hkey as [Hk1 Hk2].
    apply Z.eqb_eq in Hk1, Hk2. split.
    + intros r Hr Hrid Hru.
      assert (Hrow : In (mk_merged (userId r) (r_movie_id r) (rating r) (movie_title m))
                        (merge ratings movies)).
      { apply merge_In. exists r, m. repeat split; auto. congruence. }
      rewrite (NoDup_map_eq entry_key _ _ _ Hnd Hrow' Hrow); [reflexivity |].
      unfold entry_key. simpl. congruence.
    + intros Hnone. exfalso. apply merge_In in Hrow'.
      destruct Hrow' as [r [m' [Hr [_ [_ ->]]]]]. simpl in *.
      now apply (Hnone r Hr).
  - split; [| reflexivity].
    intros r Hr Hrid Hru. exfalso.
    eapply find_none in Hfind.
    + simpl in Hfind. instantiate (1 := mk_merged (userId r) (r_movie_id r) (rating r)
                                            (movie_title m)) in Hfind.
      simpl in Hfind. rewrite Hrid, Hru, !Z.eqb_refl in Hfind. discriminate.
    + apply merge_In. exists r, m. repeat split; auto. congruence.
Qed.

(** Movie 3 of the demo catalogue and user 2, who rated it 4. *)
Lemma loaded_matrix_cells_demo :
  exists i j row v,
    get_loc (index (df_piv demo_engine)) 3 = Ok i /\
    get_loc (columns (df_piv demo_engine)) 2 = Ok j /\
    nth_error (df_sp demo_engine) i = Some row /\
    nth_error row j = Some v /\
    (forall r, In r demo_ratings -> r_movie_id r = 3%Z -> userId r = 2%Z ->
               v = rating r) /\
    ((forall r, In r demo_ratings -> r_movie_id r = 3%Z -> userId r <> 2%Z) ->
     v = 0%Q).
Proof.
  apply (@loaded_matrix_cells _ brute_fit demo_ratings demo_movies demo_engine 3%Z 2%Z).
  - vm_compute. reflexivity.
  - vm_compute. auto.
  - vm_compute. auto.
Defined.

(** ** Titles on a loaded module *)

Lemma titles_of_all (movies : list movie_row) (ids : list Z) :
  (forall id, In id ids -> exists m, In m movies /\ movie_id m = id) ->
  Forall2 (fun id t => hd_error (title_series movies id) = Some t)
          ids (titles_of movies ids).
Proof.
  induction ids as [| id rest IH]; simpl; intros Hall; [constructor |].
  destruct (title_series movies id) as [| t ts] eqn:Hser.
  - exfalso. destruct (Hall id (or_introl eq_refl)) as [[id' t] [Hm Hid]].
    simpl in Hid. subst id'. apply title_series_In in Hm. rewrite Hser in Hm.
    destruct Hm.
  - constructor; [rewrite Hser; reflexivity | apply IH; auto].
Qed.

Lemma final_recs_in_index
  (model : Type) (kneighbors : model -> list Q -> nat -> result (list (Q * nat)))
  (g : engine model) (movie_ids final_recs : list Z) :
  final_recs_of kneighbors g movie_ids = Ok final_recs ->
  forall id, In id final_recs -> In id (index (df_piv g)).
Proof.
  unfold final_recs_of, sorted_recs_of, recommendations_of. intros H id Hid.
  destruct (accumulate kneighbors g movie_ids []) as [recs |] eqn:Hacc; [| discriminate].
  simpl in H. injection H as <-.
  destruct (select_final_not_seed _ _ _ _ Hid) as [[] | [Hin _]].
  destruct (accumulate_keys _ _ _ _ Hacc id) as [[] | H]; [| exact H].
  eapply Permutation_in; [| exact Hin]. apply Permutation_map, sorted_desc_perm.
Qed.

Lemma loaded_index_rated
  (model : Type) (fit : list (list Q) -> result model)
  (ratings : list rating_row) (movies : list movie_row) (g : engine model) (id : Z) :
  load fit ratings movies = Ok g ->
  In id (map m_movie_id (df_merged g)) ->
  (exists m, In m movies /\ movie_id m = id) /\
  (exists r, In r ratings /\ r_movie_id r = id).
Proof.
  intros Hload Hid. destruct (load_pivot _ _ _ Hload) as [_ [_ [Hmerged _]]].
  rewrite Hmerged in Hid. apply merge_movie_ids in Hid.
  destruct Hid as [r [m [Hr [Hm [H1 H2]]]]]. split; [exists m | exists r]; auto.
Qed.

(** X10.  On a loaded module no id is lost when titles are resolved:
    the titles [get_recommendations] returns are, position by position,
    the first catalogue titles of the ids in [final_recs], and the titles
    of [get_top_rated_movies] those of [top_5_ids]. *)
Theorem loaded_titles_complete
  (model : Type) (fit : list (list Q) -> result model)
  (kneighbors : model -> list Q -> nat -> result (list (Q * nat)))
  (sort_values : list (Z * Q) -> list (Z * Q))
  (ratings : list rating_row) (movies : list movie_row) (g : engine model) :
  load fit ratings movies = Ok g ->
  sorts_descending sort_values ->
  (forall movie_ids titles,
      get_recommendations kneighbors g movie_ids = Ok titles ->
      exists final_recs,
        final_recs_of kneighbors g movie_ids = Ok final_recs /\
        Forall2 (fun id t => hd_error (title_series movies id) = Some t)
                final_recs titles) /\
  Forall2 (fun id t => hd_error (title_series movies id) = Some t)
          (top_5_ids sort_values g) (get_top_rated_movies sort_values g).
Proof.
  intros Hload Hsort.
  destruct (load_pivot _ _ _ Hload) as [_ [Hmovies [_ [Hidx _]]]].
  assert (Hcat : forall id, In id (map m_movie_id (df_merged g)) ->
                            exists m, In m movies /\ movie_id m = id).
  { intros id Hid. now destruct (loaded_index_rated _ _ _ id Hload Hid). }
  split.
  - intros movie_ids titles Hrec. unfold get_recommendations in Hrec.
    destruct (final_recs_of kneighbors g movie_ids) as [final_recs |] eqn:Hfinal;
      [| discriminate].
    simpl in Hrec. injection Hrec as <-. exists final_recs. split; [reflexivity |].
    rewrite Hmovies. apply titles_of_all. intros id Hid. apply Hcat.
    apply (final_recs_in_index _ _ _ Hfinal) in Hid.
    rewrite Hidx, sorted_unique_In in Hid.
    destruct (load_pivot _ _ _ Hload) as [_ [_ [Hmerged _]]]. now rewrite Hmerged.
  - unfold get_top_rated_movies. rewrite Hmovies. apply titles_of_all.
    intros id Hid. apply Hcat.
    destruct (@top_5_ids_In _ sort_values g id Hsort Hid) as [m Hm].
    apply df_mean_popular_In in Hm. destruct Hm as [Hm _].
    eapply df_mean_rating_ids. eassumption.
Qed.

Lemma loaded_titles_complete_demo :
  (forall movie_ids titles,
      get_recommendations brute_kneighbors demo_engine movie_ids = Ok titles ->
      exists final_recs,
        final_recs_of brute_kneighbors demo_engine movie_ids = Ok final_recs /\
        Forall2 (fun id t => hd_error (title_series demo_movies id) = Some t)
                final_recs titles) /\
  Forall2 (fun id t => hd_error (title_series demo_movies id) = Some t)
          (top_5_ids stable_sort_values demo_engine)
          (get_top_rated_movies stable_sort_values demo_engine).
Proof.
  apply (@loaded_titles_complete _ brute_fit brute_kneighbors stable_sort_values
           demo_ratings demo_movies demo_engine).
  - vm_compute. reflexivity.
  - apply stable_sort_values_sorts.
Defined.

(** X11.  On a loaded module both rankings hold only movies of the movie
    list that have at least one rating: the ids behind the titles of
    [get_recommendations] and of [get_top_rated_movies] each have a row in
    the movie list and a row in the ratings. *)
Theorem loaded_rankings_rated
  (model : Type) (fit : list (list Q) -> result model)
  (kneighbors : model -> list Q -> nat -> result (list (Q * nat)))
  (sort_values : list (Z * Q) -> list (Z * Q))
  (ratings : list rating_row) (movies : list movie_row) (g : engine model) :
  load fit ratings movies = Ok g ->
  sorts_descending sort_values ->
  (forall movie_ids final_recs id,
      final_recs_of kneighbors g movie_ids = Ok final_recs ->
      In id final_recs ->
      (exists m, In m movies /\ movie_id m = id) /\
      (exists r, In r ratings /\ r_movie_id r = id)) /\
  (forall id,
      In id (top_5_ids sort_values g) ->
      (exists m, In m movies /\ movie_id m = id) /\
      (exists r, In r ratings /\ r_movie_id r = id)).
Proof.
  intros Hload Hsort.
  destruct (load_pivot _ _ _ Hload) as [_ [_ [Hmerged [Hidx _]]]].
  split.
  - intros movie_ids final_recs id Hfinal Hid.
    apply (loaded_index_rated _ _ _ id Hload).
    apply (final_recs_in_index _ _ _ Hfinal) in Hid.
    rewrite Hidx, sorted_unique_In in Hid. now rewrite Hmerged.
  - intros id Hid. apply (loaded_index_rated _ _ _ id Hload).
    destruct (@top_5_ids_In _ sort_values g id Hsort Hid) as [m Hm].
    apply df_mean_popular_In in Hm. destruct Hm as [Hm _].
    eapply df_mean_rating_ids. eassumption.
Qed.

Lemma loaded_rankings_rated_demo :
  (forall movie_ids final_recs id,
      final_recs_of brute_kneighbors demo_engine movie_ids = Ok final_recs ->
      In id final_recs ->
      (exists m, In m demo_movies /\ movie_id m = id) /\
      (exists r, In r demo_ratings /\ r_movie_id r = id)) /\
  (forall id,
      In id (top_5_ids stable_sort_values demo_engine) ->
      (exists m, In m demo_movies /\ movie_id m = id) /\
      (exists r, In r demo_ratings /\ r_movie_id r = id)).
Proof.
  apply (@loaded_rankings_rated _ brute_fit brute_kneighbors stable_sort_values
           demo_ratings demo_movies demo_engine).
  - vm_compute. reflexivity.
  - apply stable_sort_values_sorts.
Defined.

(** ** The median threshold *)

Lemma insert_asc_perm (x : Z) (l : list Z) : Permutation (insert_asc x l) (x :: l).
Proof.
  induction l as [| y rest IH]; simpl.
  - apply Permutation_refl.
  - destruct (x <=? y)%Z; [apply Permutation_refl |].
    eapply perm_trans; [apply perm_skip, IH | apply perm_swap].
Qed.

Lemma sort_asc_perm (l : list Z) : Permutation (sort_asc l) l.
Proof.
  induction l as [| x rest IH]; simpl.
  - apply perm_nil.
  - eapply perm_trans; [apply insert_asc_perm | now apply perm_skip].
Qed.

Lemma insert_asc_sorted (x : Z) (l : list Z) :
  StronglySorted Z.le l -> StronglySorted Z.le (insert_asc x l).
Proof.
  induction l as [| y rest IH]; intros Hs; simpl.
  - constructor; constructor.
  - inversion Hs as [| ? ? Hrest Hall]; subst.
    destruct (x <=? y)%Z eqn:Hle.
    + apply Z.leb_le in Hle. constructor; [assumption |].
      constructor; [assumption |].
      eapply Forall_impl; [| exact Hall]. intros; simpl in *; lia.
    + apply Z.leb_gt in Hle. constructor; [now apply IH |].
      eapply Permutation_Forall; [apply Permutation_sym, insert_asc_perm |].
      constructor; [lia | assumption].
Qed.

Lemma sort_asc_sorted (l : list Z) : StronglySorted Z.le (sort_asc l).
Proof.
  induction l as [| x rest IH]; simpl.
  - constructor.
  - now apply insert_asc_sorted.
Qed.

(** In a sorted list everything from position [k] on is at least the
    element at position [k]. *)
Lemma sorted_skipn_ge (s : list Z) :
  StronglySorted Z.le s ->
  forall k, Forall (fun x => (nth k s 0 <= x)%Z) (skipn k s).
Proof.
  induction 1 as [| x rest Hrest IH Hall]; intros k.
  - destruct k; constructor.
  - destruct k as [| k]; simpl.
    + constructor; [lia | assumption].
    + apply IH.
Qed.

Lemma sorted_nth_le (s : list Z) :
  StronglySorted Z.le s ->
  forall i j, (i <= j < List.length s)%nat -> (nth i s 0 <= nth j s 0)%Z.
Proof.
  induction 1 as [| x rest Hrest IH Hall]; intros i j Hij; simpl in Hij; [lia |].
  destruct i as [| i], j as [| j]; simpl; try lia.
  - rewrite Forall_forall in Hall. apply Hall, nth_In. lia.
  - apply IH. lia.
Qed.

Lemma filter_length_perm (A : Type) (f : A -> bool) (l l' : list A) :
  Permutation l l' -> List.length (filter f l) = List.length (filter f l').
Proof.
  induction 1; simpl.
  - reflexivity.
  - destruct (f x); simpl; congruence.
  - destruct (f x), (f y); reflexivity.
  - congruence.
Qed.

Lemma filter_length_all (A : Type) (f : A -> bool) (l : list A) :
  Forall (fun x => f x = true) l -> List.length (filter f l) = List.length l.
Proof.
  induction 1 as [| x rest Hx _ IH]; simpl; [reflexivity |].
  rewrite Hx. simpl. now rewrite IH.
Qed.

(** The median is at most the element in the middle of the sorted
    counts. *)
Lemma median_le_middle (l : list Z) (t : Q) :
  median l = Some t ->
  (t <= inject_Z (nth (List.length l / 2) (sort_asc l) 0%Z))%Q.
Proof.
  unfold median.
  assert (Hlen : List.length (sort_asc l) = List.length l)
    by (apply Permutation_length, sort_asc_perm).
  rewrite Hlen.
  destruct (List.length l) as [| n] eqn:Hn; [discriminate |].
  destruct (Nat.even (S n)) eqn:Heven; intros H; injection H as <-.
  - assert (Hle : (nth (S n / 2 - 1) (sort_asc l) 0 <= nth (S n / 2) (sort_asc l) 0)%Z).
    { apply sorted_nth_le; [apply sort_asc_sorted |]. rewrite Hlen. split; [lia |].
      apply Nat.div_lt; lia. }
    rewrite Zle_Qle in Hle.
    change (fst (Nat.divmod n 1 0 0)) with (S n / 2)%nat.
    set (a := inject_Z (nth (S n / 2 - 1) (sort_asc l) 0%Z)) in *.
    set (b := inject_Z (nth (S n / 2) (sort_asc l) 0%Z)) in *.
    apply Qle_shift_div_r; lra.
  - apply Qle_refl.
Qed.

(** At least half of the counts reach the median. *)
Lemma median_keeps_half (l : list Z) :
  (List.length l <=
   2 * List.length (filter (fun c => ge_threshold c (median l)) l))%nat.
Proof.
  destruct (median l) as [t |] eqn:Hmed.
  - pose proof (median_le_middle _ Hmed) as Hmid.
    set (k := (List.length l / 2)%nat) in *.
    rewrite (filter_length_perm _ (Permutation_sym (sort_asc_perm l))).
    rewrite <- (firstn_skipn k (sort_asc l)) at 1.
    rewrite filter_app, length_app.
    rewrite (filter_length_all _ (l := skipn k (sort_asc l))).
    + rewrite length_skipn, (Permutation_length (sort_asc_perm l)).
      assert (2 * k <= List.length l)%nat by (apply Nat.Div0.mul_div_le). lia.
    + eapply Forall_impl; [| apply sorted_skipn_ge, sort_asc_sorted].
      intros c Hc. simpl. apply Qle_bool_iff.
      eapply Qle_trans; [exact Hmid |]. rewrite <- Zle_Qle. exact Hc.
  - unfold median in Hmed.
    destruct (List.length (sort_asc l)) as [| n] eqn:Hn.
    + rewrite (Permutation_length (sort_asc_perm l)) in Hn. rewrite Hn. lia.
    + destruct (Nat.even (S n)); discriminate.
Qed.

Lemma map_fst_filter_map (A : Type) (F : Z -> Z * A) (P : Z * A -> bool) (ids : list Z) :
  (forall id, fst (F id) = id) ->
  map fst (filter P (map F ids)) = filter (fun id => P (F id)) ids.
Proof.
  intros HF. induction ids as [| id rest IH]; simpl; [reflexivity |].
  destruct (P (F id)); simpl; now rewrite ?HF, IH.
Qed.

Lemma filter_length_map (A B : Type) (h : A -> B) (f : B -> bool) (l : list A) :
  List.length (filter (fun x => f (h x)) l) = List.length (filter f (map h l)).
Proof.
  induction l as [| x rest IH]; simpl; [reflexivity |].
  destruct (f (h x)); simpl; now rewrite IH.
Qed.

Section MorePopularity.

Variable model : Type.
Variable sort_values : list (Z * Q) -> list (Z * Q).
Variable g : engine model.

Lemma popular_movies_filter :
  popular_movies g =
  filter (fun id => ge_threshold (rating_count (df_merged g) id) (min_ratings_threshold g))
         (sorted_unique (map m_movie_id (df_merged g))).
Proof.
  unfold popular_movies. rewrite df_count_rating_counts.
  now rewrite map_fst_filter_map.
Qed.

Lemma df_mean_popular_ids : map fst (df_mean_popular g) = popular_movies g.
Proof.
  unfold df_mean_popular, df_mean_rating, groupby_rating. rewrite map_map.
  rewrite map_fst_filter_map by reflexivity. simpl.
  etransitivity; [| symmetry; apply popular_movies_filter].
  apply filter_ext_in. intros id Hid.
  rewrite popular_movies_filter.
  destruct (ge_threshold _ _) eqn:Hge.
  - apply in_list_In, filter_In. auto.
  - apply in_list_false. rewrite filter_In. intros [_ H]. congruence.
Qed.

Lemma popular_movies_half :
  (List.length (sorted_unique (map m_movie_id (df_merged g))) <=
   2 * List.length (popular_movies g))%nat.
Proof.
  rewrite popular_movies_filter, min_ratings_threshold_median.
  rewrite (filter_length_map (rating_count (df_merged g))
             (fun c => ge_threshold c
                         (median (map (rating_count (df_merged g))
                                      (sorted_unique (map m_movie_id (df_merged g))))))).
  rewrite <- (length_map (rating_count (df_merged g))) at 1.
  apply median_keeps_half.
Qed.

End MorePopularity.

(** ** More on [get_top_rated_movies] *)

(** X12.  The median threshold keeps at least half of the rated movies;
    the ranking holds five ids, or all the kept movies when they are
    fewer than five; it is empty only when the merged data is empty. *)
Theorem top_rated_keeps_half
  (model : Type) (sort_values : list (Z * Q) -> list (Z * Q)) (g : engine model) :
  sorts_descending sort_values ->
  (List.length (sorted_unique (map m_movie_id (df_merged g))) <=
   2 * List.length (popular_movies g))%nat /\
  List.length (top_5_ids sort_values g) = Nat.min 5 (List.length (popular_movies g)) /\
  (df_merged g <> [] -> top_5_ids sort_values g <> []).
Proof.
  intros Hsort. pose proof (popular_movies_half g) as Hhalf.
  assert (Hlen : List.length (top_5_ids sort_values g)
                 = Nat.min 5 (List.length (popular_movies g))).
  { unfold top_5_ids. rewrite length_map, length_firstn.
    destruct (Hsort (df_mean_popular g)) as [Hperm _].
    rewrite (Permutation_length Hperm), <- df_mean_popular_ids, length_map.
    reflexivity. }
  split; [exact Hhalf |]. split; [exact Hlen |].
  intros Hdata Hempty. rewrite Hempty in Hlen. cbn [List.length] in Hlen.
  assert (Hids : sorted_unique (map m_movie_id (df_merged g)) <> []).
  { destruct (df_merged g) as [| row rest]; [contradiction |].
    intros H. assert (Hin : In (m_movie_id row) (sorted_unique (map m_movie_id (row :: rest))))
      by (apply sorted_unique_In; now left).
    rewrite H in Hin. destruct Hin. }
  destruct (sorted_unique (map m_movie_id (df_merged g))); [contradiction |].
  cbn [List.length] in Hhalf. lia.
Qed.

Lemma top_rated_keeps_half_demo :
  (List.length (sorted_unique (map m_movie_id (df_merged demo_engine))) <=
   2 * List.length (popular_movies demo_engine))%nat /\
  List.length (top_5_ids stable_sort_values demo_engine)
    = Nat.min 5 (List.length (popular_movies demo_engine)) /\
  (df_merged demo_engine <> [] -> top_5_ids stable_sort_values demo_engine <> []).
Proof.
  apply (top_rated_keeps_half demo_engine stable_sort_values_sorts).
Defined.

(** X13.  No movie stands twice in the popularity ranking: the ids
    behind the titles of [get_top_rated_movies] are pairwise distinct. *)
Theorem top_5_ids_distinct
  (model : Type) (sort_values : list (Z * Q) -> list (Z * Q)) (g : engine model) :
  sorts_descending sort_values ->
  NoDup (top_5_ids sort_values g).
Proof.
  intros Hsort. unfold top_5_ids. rewrite <- firstn_map. apply NoDup_firstn.
  destruct (Hsort (df_mean_popular g)) as [Hperm _].
  eapply Permutation_NoDup; [apply Permutation_sym, Permutation_map, Hperm |].
  rewrite df_mean_popular_ids, popular_movies_filter.
  apply NoDup_filter, sorted_unique_NoDup.
Qed.

Lemma top_5_ids_distinct_demo : NoDup (top_5_ids unstable_sort_values demo_engine).
Proof.
  apply (top_5_ids_distinct demo_engine unstable_sort_values_sorts).
Defined.

(** ** The [/recommend] route *)

Lemma nodup_length_le (l : list Z) :
  (List.length (nodup Z.eq_dec l) <= List.length l)%nat.
Proof.
  induction l as [| x rest IH]; simpl; [lia |].
  destruct (in_dec Z.eq_dec x rest); simpl; lia.
Qed.

Lemma nodup_length_lt (l : list Z) :
  ~ NoDup l -> (List.length (nodup Z.eq_dec l) < List.length l)%nat.
Proof.
  induction l as [| x rest IH]; simpl; intros Hnot.
  - exfalso. apply Hnot. constructor.
  - destruct (in_dec Z.eq_dec x rest) as [Hin | Hout]; simpl.
    + pose proof (nodup_length_le rest). lia.
    + assert (~ NoDup rest) by (intros H; apply Hnot; now constructor).
      specialize (IH H). lia.
Qed.

Lemma first_occurrences_lists_set : lists_the_set first_occurrences.
Proof.
  intros l. unfold first_occurrences. split.
  - apply NoDup_rev, NoDup_nodup.
  - intros x. rewrite <- in_rev, nodup_In, <- in_rev. reflexivity.
Qed.

Section RouteFacts.

Variable model : Type.
Variable kneighbors : model -> list Q -> nat -> result (list (Q * nat)).
Variable sort_values : list (Z * Q) -> list (Z * Q).
Variable g : engine model.
Variable isdigit : string -> bool.
Variable int : string -> result Z.
Variable list_of_set : list Z -> list Z.

(** The loop appends one id per field that passes the test, in the order
    of the fields. *)
Lemma selected_ids_spec (form : string -> option string) (keys : list string) :
  forall movie_ids ids,
    selected_ids isdigit int form keys movie_ids = Ok ids ->
    exists new,
      ids = movie_ids ++ new /\
      Forall2 (fun key id => exists s, form key = Some s /\ isdigit s = true /\
                                       int s = Ok id)
              (filter (fun key => field_is_id isdigit (form key)) keys) new.
Proof.
  induction keys as [| key rest IH]; simpl; intros acc ids H.
  - injection H as <-. exists []. split; [now rewrite app_nil_r | constructor].
  - destruct (field_is_id isdigit (form key)) eqn:Hfield.
    + destruct (form key) as [s |] eqn:Hform; [| discriminate].
      destruct (int s) as [id |] eqn:Hint; [| discriminate]. simpl in H.
      destruct (IH _ _ H) as [new [-> Hall]]. exists (id :: new).
      split; [now rewrite <- app_assoc |]. constructor; [| assumption].
      exists s. repeat split; try assumption.
      simpl in Hfield. now destruct s.
    + now apply IH.
Qed.

End RouteFacts.

Lemma final_recs_not_seed
  (model : Type) (kneighbors : model -> list Q -> nat -> result (list (Q * nat)))
  (g : engine model) (movie_ids final_recs : list Z) :
  final_recs_of kneighbors g movie_ids = Ok final_recs ->
  forall id, In id final_recs -> ~ In id movie_ids.
Proof.
  unfold final_recs_of. intros H id Hid.
  destruct (sorted_recs_of kneighbors g movie_ids) as [sorted_recs |]; [| discriminate].
  simpl in H. injection H as <-.
  now destruct (select_final_not_seed _ _ _ _ Hid) as [[] | [_ Hnot]].
Qed.

Lemma three_fields
  (isdigit : string -> bool) (int : string -> result Z)
  (form : string -> option string) (ids : list Z) :
  selected_ids isdigit int form ["movie1"; "movie2"; "movie3"]%string [] = Ok ids ->
  (List.length ids <= 3)%nat /\
  ((exists key, In key ["movie1"; "movie2"; "movie3"]%string /\
                field_is_id isdigit (form key) = false) ->
   (List.length ids <= 2)%nat) /\
  (List.length ids = 3%nat ->
   exists s1 s2 s3 a b c,
     form "movie1"%string = Some s1 /\ form "movie2"%string = Some s2 /\
     form "movie3"%string = Some s3 /\
     isdigit s1 = true /\ isdigit s2 = true /\ isdigit s3 = true /\
     int s1 = Ok a /\ int s2 = Ok b /\ int s3 = Ok c /\ ids = [a; b; c]).
Proof.
  intros H. destruct (selected_ids_spec _ _ _ _ _ H) as [new [-> Hall]].
  cbn [app filter] in *.
  destruct (field_is_id isdigit (form "movie1"%string)) eqn:H1,
           (field_is_id isdigit (form "movie2"%string)) eqn:H2,
           (field_is_id isdigit (form "movie3"%string)) eqn:H3;
    pose proof (Forall2_length Hall) as Hlen; cbn [List.length] in Hlen;
    (split; [lia |]); (split; [| intros Hthree; try lia]).
  - intros [key [Hkey Hf]]. simpl in Hkey.
    destruct Hkey as [Hk | [Hk | [Hk | []]]]; subst key; congruence.
  - inversion Hall as [| ? a ? r1 [s1 [F1 [D1 I1]]] Hall1]; subst.
    inversion Hall1 as [| ? b ? r2 [s2 [F2 [D2 I2]]] Hall2]; subst.
    inversion Hall2 as [| ? c ? r3 [s3 [F3 [D3 I3]]] Hall3]; subst.
    inversion Hall3; subst.
    exists s1, s2, s3, a, b, c. repeat split; assumption.
  - intros _. lia.
  - intros _. lia.
  - intros _. lia.
  - intros _. lia.
  - intros _. lia.
  - intros _. lia.
  - intros _. lia.
Qed.

(** X14.  The route serves similarity-based recommendations only when
    all three fields hold digit strings that convert to three different
    ids; the header then shows 3, the seeds are these three ids in some
    order, and none of them is behind a listed title. *)
Theorem recommend_selection
  (model : Type) (kneighbors : model -> list Q -> nat -> result (list (Q * nat)))
  (sort_values : list (Z * Q) -> list (Z * Q)) (g : engine model)
  (isdigit : string -> bool) (int : string -> result Z)
  (list_of_set : list Z -> list Z)
  (form : string -> option string) (n : nat) (recommendations : list string) :
  lists_the_set list_of_set ->
  recommend kneighbors sort_values g isdigit int list_of_set form
    = Ok (selection_header n, recommendations) ->
  n = 3%nat /\
  exists s1 s2 s3 a b c,
    form "movie1"%string = Some s1 /\ form "movie2"%string = Some s2 /\
    form "movie3"%string = Some s3 /\
    isdigit s1 = true /\ isdigit s2 = true /\ isdigit s3 = true /\
    int s1 = Ok a /\ int s2 = Ok b /\ int s3 = Ok c /\
    a <> b /\ a <> c /\ b <> c /\
    Permutation (list_of_set [a; b; c]) [a; b; c] /\
    exists final_recs,
      final_recs_of kneighbors g (list_of_set [a; b; c]) = Ok final_recs /\
      recommendations = titles_of (df_movies g) final_recs /\
      forall id, In id final_recs -> id <> a /\ id <> b /\ id <> c.
Proof.
  intros Hset H. unfold recommend in H.
  destruct (selected_ids isdigit int form _ []) as [ids |] eqn:Hids; [| discriminate].
  cbn [bind] in H.
  destruct (3 <=? List.length (nodup Z.eq_dec ids))%nat eqn:Hcount;
    [| discriminate].
  apply Nat.leb_le in Hcount.
  destruct (get_recommendations kneighbors g (list_of_set ids)) as [recs |] eqn:Hrec;
    [| discriminate].
  cbn [bind] in H. injection H as <- <-.
  destruct (three_fields _ _ _ Hids) as [Hle [_ Hthree]].
  pose proof (nodup_length_le ids) as Hnd.
  destruct Hthree as [s1 [s2 [s3 [a [b [c Hf]]]]]]; [lia |].
  destruct Hf as [F1 [F2 [F3 [D1 [D2 [D3 [I1 [I2 [I3 ->]]]]]]]]].
  assert (Hdistinct : NoDup [a; b; c]).
  { destruct (ListDec.NoDup_dec Z.eq_dec [a; b; c]) as [Hy | Hn]; [assumption |].
    apply nodup_length_lt in Hn. change (List.length [a; b; c]) with 3%nat in Hn. lia. }
  split; [change (List.length [a; b; c]) with 3%nat in Hnd; lia |].
  exists s1, s2, s3, a, b, c. repeat (split; [assumption |]).
  inversion Hdistinct as [| ? ? Ha Hbc]; subst. inversion Hbc as [| ? ? Hb _]; subst.
  simpl in Ha, Hb.
  split; [intuition congruence |]. split; [intuition congruence |].
  split; [intuition congruence |].
  destruct (Hset [a; b; c]) as [Hnodup Hsame].
  split; [now apply NoDup_Permutation |].
  unfold get_recommendations in Hrec.
  destruct (final_recs_of kneighbors g (list_of_set [a; b; c])) as [final_recs |] eqn:Hfinal;
    [| discriminate].
  simpl in Hrec. injection Hrec as <-. exists final_recs.
  split; [reflexivity |]. split; [reflexivity |].
  intros id Hid. apply (final_recs_not_seed _ _ _ Hfinal) in Hid.
  rewrite Hsame in Hid. simpl in Hid. repeat split; intros ->; intuition congruence.
Qed.

Lemma recommend_selection_demo :
  3%nat = 3%nat /\
  exists s1 s2 s3 a b c,
    demo_form "1" "2" "3" "movie1"%string = Some s1 /\
    demo_form "1" "2" "3" "movie2"%string = Some s2 /\
    demo_form "1" "2" "3" "movie3"%string = Some s3 /\
    ascii_isdigit s1 = true /\ ascii_isdigit s2 = true /\ ascii_isdigit s3 = true /\
    decimal_int s1 = Ok a /\ decimal_int s2 = Ok b /\ decimal_int s3 = Ok c /\
    a <> b /\ a <> c /\ b <> c /\
    Permutation (first_occurrences [a; b; c]) [a; b; c] /\
    exists final_recs,
      final_recs_of brute_kneighbors demo_engine (first_occurrences [a; b; c])
        = Ok final_recs /\
      ["Dune"; "Fargo"; "Heat"; "Gattaca"; "Kundun"]%string
        = titles_of (df_movies demo_engine) final_recs /\
      forall id, In id final_recs -> id <> a /\ id <> b /\ id <> c.
Proof.
  apply (@recommend_selection _ brute_kneighbors stable_sort_values demo_engine
           ascii_isdigit decimal_int first_occurrences (demo_form "1" "2" "3")).
  - apply first_occurrences_lists_set.
  - vm_compute. reflexivity.
Defined.

(** X15.  When the conversion of the fields raises nothing and the
    fields do not hold three different ids (a field is missing, empty or
    not made of digits, or two fields convert to the same id), the route
    serves the list of [get_top_rated_movies] under the top-rated header,
    whatever the similarity index holds. *)
Theorem recommend_falls_back
  (model : Type) (kneighbors : model -> list Q -> nat -> result (list (Q * nat)))
  (sort_values : list (Z * Q) -> list (Z * Q)) (g : engine model)
  (isdigit : string -> bool) (int : string -> result Z)
  (list_of_set : list Z -> list Z)
  (form : string -> option string) (ids : list Z) :
  selected_ids isdigit int form ["movie1"; "movie2"; "movie3"]%string [] = Ok ids ->
  (exists key, In key ["movie1"; "movie2"; "movie3"]%string /\
               field_is_id isdigit (form key) = false) \/ ~ NoDup ids ->
  recommend kneighbors sort_values g isdigit int list_of_set form
    = Ok (top_rated_header, get_top_rated_movies sort_values g).
Proof.
  intros Hids Hfew. unfold recommend. rewrite Hids. cbn [bind].
  destruct (three_fields _ _ _ Hids) as [Hle [Hmissing _]].
  assert (Hcount : (List.length (nodup Z.eq_dec ids) < 3)%nat).
  { destruct Hfew as [Hkey | Hdup].
    - specialize (Hmissing Hkey). pose proof (nodup_length_le ids). lia.
    - apply nodup_length_lt in Hdup. lia. }
  apply Nat.leb_gt in Hcount. now rewrite Hcount.
Qed.

(** The second field repeats the first ("01" converts to 1). *)
Lemma recommend_falls_back_demo :
  recommend brute_kneighbors stable_sort_values demo_engine
    ascii_isdigit decimal_int first_occurrences (demo_form "1" "01" "3")
  = Ok (top_rated_header, get_top_rated_movies stable_sort_values demo_engine).
Proof.
  apply (@recommend_falls_back _ brute_kneighbors stable_sort_values demo_engine
           ascii_isdigit decimal_int first_occurrences (demo_form "1" "01" "3")
           [1; 1; 3]%Z).
  - vm_compute. reflexivity.
  - right. intros H. inversion H as [| ? ? Hnot _]; subst. apply Hnot. now left.
Defined.

(** ** The cleaned title *)

(** No match starts at a character that is not followed by an opening
    parenthesis. *)
Lemma title_clean_step (c0 : ascii) (s' : string) :
  (forall c1 r, s' = String c1 r -> c1 <> "("%char) ->
  title_clean (String c0 s') = String c0 (title_clean s').
Proof.
  intros Hnext.
  destruct s' as [| c1 [| d1 [| d2 [| d3 [| d4 [| c6 rest]]]]]]; try reflexivity.
  cbn [title_clean]. unfold year_pattern.
  assert (Hc1 : Ascii.eqb c1 "(" = false).
  { apply Ascii.eqb_neq. eapply Hnext. reflexivity. }
  rewrite Hc1, andb_false_r. reflexivity.
Qed.

(** X16.  A title that holds no opening parenthesis is its own cleaned
    title, and is the cleaned title of itself followed by a space and a
    year of four digits in parentheses. *)
Theorem title_clean_year_suffix (t : string) (d1 d2 d3 d4 : ascii) :
  Forall (fun c => c <> "("%char) (list_ascii_of_string t) ->
  is_digit d1 = true -> is_digit d2 = true ->
  is_digit d3 = true -> is_digit d4 = true ->
  title_clean t = t /\
  title_clean
    (t ++ String " " (String "(" (String d1 (String d2 (String d3 (String d4
            (String ")" EmptyString)))))))%string = t.
Proof.
  intros Hparen H1 H2 H3 H4. induction t as [| c t' IH].
  - split; [reflexivity |]. cbn [append title_clean]. unfold year_pattern.
    now rewrite H1, H2, H3, H4.
  - cbn [list_ascii_of_string] in Hparen.
    inversion Hparen as [| ? ? Hc Hrest]; subst.
    destruct (IH Hrest) as [IH1 IH2]. split.
    + rewrite title_clean_step; [now rewrite IH1 |].
      intros c1 r ->. cbn [list_ascii_of_string] in Hrest.
      now inversion Hrest.
    + cbn [append]. rewrite title_clean_step; [now rewrite IH2 |].
      intros c1 r Heq. destruct t' as [| c1' t''].
      * cbn [append] in Heq. injection Heq as <- _. discriminate.
      * cbn [append] in Heq. injection Heq as <- _.
        cbn [list_ascii_of_string] in Hrest. now inversion Hrest.
Qed.

Lemma title_clean_year_suffix_demo :
  title_clean "Toy Story" = "Toy Story"%string /\
  title_clean ("Toy Story" ++ " (1995)") = "Toy Story"%string.
Proof.
  apply (title_clean_year_suffix "Toy Story" "1" "9" "9" "5");
    try reflexivity.
  repeat (constructor; [discriminate |]). constructor.
Defined.

(** ** Mean ratings *)




(** ** Recommendations are listed best first *)

Lemma dict_get_In (d : dict) (k : Z) (v default : Q) :
  NoDup (map fst d) -> In (k, v) d -> dict_get d k default = v.
Proof.
  induction d as [| [k0 v0] rest IH]; simpl; intros Hnd Hin; [destruct Hin |].
  inversion Hnd as [| ? ? Hnot Hrest]; subst.
  destruct Hin as [Heq | Hin].
  - injection Heq as -> ->. now rewrite Z.eqb_refl.
  - destruct (k0 =? k)%Z eqn:Hk; [| now apply IH].
    apply Z.eqb_eq in Hk. subst k0. exfalso. apply Hnot.
    change k with (fst (k, v)). now apply in_map.
Qed.

Lemma StronglySorted_filter (A : Type) (R : A -> A -> Prop) (f : A -> bool) (l : list A) :
  StronglySorted R l -> StronglySorted R (filter f l).
Proof.
  induction 1 as [| x rest Hrest IH Hall]; simpl; [constructor |].
  destruct (f x); [| assumption]. constructor; [assumption |].
  apply Forall_forall. intros y Hy. apply filter_In in Hy.
  rewrite Forall_forall in Hall. now apply Hall.
Qed.

Lemma StronglySorted_firstn (A : Type) (R : A -> A -> Prop) (n : nat) (l : list A) :
  StronglySorted R l -> StronglySorted R (firstn n l).
Proof.
  intros Hs. revert n. induction Hs as [| x rest Hrest IH Hall]; intros [| n]; simpl;
    try constructor.
  - apply IH.
  - apply Forall_forall. intros y Hy. apply firstn_subset in Hy.
    rewrite Forall_forall in Hall. now apply Hall.
Qed.

(** X18.  The recommendations are listed best first: along [final_recs]
    the accumulated scores never increase. *)
Theorem final_recs_best_first
  (model : Type) (kneighbors : model -> list Q -> nat -> result (list (Q * nat)))
  (g : engine model) (movie_ids : list Z) (final_recs : list Z) :
  final_recs_of kneighbors g movie_ids = Ok final_recs ->
  exists recommendations,
    recommendations_of kneighbors g movie_ids = Ok recommendations /\
    StronglySorted
      (fun a b => dict_get recommendations b 0 <= dict_get recommendations a 0)%Q
      final_recs.
Proof.
  unfold final_recs_of, sorted_recs_of, recommendations_of. intros H.
  destruct (accumulate kneighbors g movie_ids []) as [recs |] eqn:Hacc; [| discriminate].
  simpl in H. injection H as <-. exists recs. split; [reflexivity |].
  rewrite select_final_firstn by (simpl; lia).
  change (5 - List.length (@nil Z))%nat with 5%nat. cbn [app].
  apply StronglySorted_firstn, StronglySorted_filter.
  assert (Hnd : NoDup (map fst recs))
    by (eapply accumulate_NoDup; [eassumption | constructor]).
  assert (Hget : forall p, In p (sorted_desc recs) -> dict_get recs (fst p) 0 = snd p).
  { intros [k v] Hp. apply dict_get_In; [assumption |].
    eapply Permutation_in; [apply sorted_desc_perm | exact Hp]. }
  pose proof (sorted_desc_sorted recs) as Hsorted.
  induction Hsorted as [| p rest Hrest IH Hall]; simpl; constructor.
  - apply IH. intros q Hq. apply Hget. now right.
  - apply Forall_forall. intros id Hid. apply in_map_iff in Hid.
    destruct Hid as [q [<- Hq]].
    rewrite (Hget p) by now left. rewrite (Hget q) by now right.
    rewrite Forall_forall in Hall. exact (Hall q Hq).
Qed.

Lemma final_recs_best_first_demo :
  exists recommendations,
    recommendations_of brute_kneighbors demo_engine [1; 2]%Z = Ok recommendations /\
    StronglySorted
      (fun a b => dict_get recommendations b 0 <= dict_get recommendations a 0)%Q
      [4; 3; 5; 6; 7]%Z.
Proof.
  apply (final_recs_best_first brute_kneighbors demo_engine [1; 2]%Z).
  vm_compute. reflexivity.
Defined.
